(** * Protocol FSM runtime and RBF cooperative close states

    A shallow embedding of

      - [protofsm/state_machine.go]: the generic state machine driver
        ([executeDaemonEvent], [applyEvents], [driveMachine], [CanHandle],
        [SendMessage], [CurrentState]);
      - [lnwallet/chancloser/rbf_coop_states.go]: the states and events of
        the RBF cooperative close ([IsTerminal], [ShouldRouteTo], the close
        terms and their dust and fee predicates).

    Goroutines, channels and [select] are not executed.  Every blocking
    [select] of the source is resolved by a value handed to the model (which
    branch fired), every goroutine the source launches is recorded in the
    trace as a spawned task, and the adapter, an interface of the source, is
    a state-passing interface here. *)

From Stdlib Require Import ZArith List String Bool Lia.
Import ListNotations.

Set Implicit Arguments.
Local Open Scope Z_scope.

(** ** The [fn] helpers used by both packages *)

(** Modelled from the spec: the [fn] package is outside the two files.  Its
    option helpers, its queue (the design's FIFO queue, internal events
    enqueued "at the tail") and its channel helper are given by what
    [state_machine.go] relies on. *)
Module fn.

(** [fn.Option[A]] is [option A]. *)
Definition IsSome {A} (o : option A) : bool :=
  match o with Some _ => true | None => false end.

(** [fn.MapOptionZ(o, f)]: [f] applied to the contents, or the zero value
    of the result type, which the caller hands over as [zero]. *)
Definition MapOptionZ {A B} (zero : B) (o : option A) (f : A -> B) : B :=
  match o with Some a => f a | None => zero end.

Definition UnwrapOr {A} (o : option A) (dflt : A) : A :=
  match o with Some a => a | None => dflt end.

(** Modelled from the spec: [fn.Queue], outside the two files, is the FIFO
    queue of the design: [Enqueue] at the tail, [Dequeue] from the head. *)
Definition Queue (A : Type) := list A.
Definition NewQueue {A} (a : A) : Queue A := [a].
Definition Enqueue {A} (q : Queue A) (a : A) : Queue A := q ++ [a].
Definition Dequeue {A} (q : Queue A) : option A * Queue A :=
  match q with
  | [] => (None, [])
  | a :: q' => (Some a, q')
  end.

(** The branch a two-way [select] took. *)
Inductive Pick := PickSend | PickQuit.

(** [fn.SendOrQuit(c, v, quit)]: true when the send went through, false
    when [quit] fired. *)
Definition SendOrQuit (p : Pick) : bool :=
  match p with PickSend => true | PickQuit => false end.

End fn.

(** ** protofsm *)

Module protofsm.

(** Types that other packages own and that the driver only passes
    around. *)
Class Externals := {
  PublicKey : Type;          (* btcec.PublicKey *)
  Message : Type;            (* lnwire.Message *)
  MsgTx : Type;              (* wire.MsgTx *)
  OutPoint : Type;           (* wire.OutPoint *)
  Hash : Type;               (* chainhash.Hash *)
  ConfirmationEvent : Type;  (* chainntnfs.ConfirmationEvent *)
  SpendEvent : Type;         (* chainntnfs.SpendEvent *)
  SendPredicate : Type;      (* func() bool *)
  ExtError : Type            (* errors made outside this package *)
}.

(** The dynamic type of a daemon event, what [%T] prints. *)
Inductive DaemonEventKind :=
| KSendMsgEvent
| KDisableChannelEvent
| KBroadcastTxn
| KRegisterSpend
| KRegisterConf
| KOther.

Section Errors.
Context `{Externals}.

(** Go's [error] values as the driver sees and makes them. *)
Inductive error :=
| ErrExternal (e : ExtError)
| Errorf (context : string) (wrapped : error)      (* "...: %w" *)
| ErrUnknownDaemonEvent (k : DaemonEventKind)      (* "unknown daemon event: %T" *)
| ErrShuttingDown                                  (* "state machine is shutting down" *)
| ErrTimeout.                                      (* fn.RecvOrTimeout *)

(** Modelled from the spec: [fn.RecvOrTimeout(c, time.Second)], the bounded
    wait of [CurrentState]: the value that arrived within the second, or the
    timeout error. *)
Definition RecvOrTimeout {T} (arrived : option T) : T + error :=
  match arrived with
  | Some m => inl m
  | None => inr ErrTimeout
  end.
End Errors.

Section Events.
Context `{Externals}.
Variable Event : Type.

(** Modelled from the spec: the daemon event structs are declared outside
    the two files; these are the five variants of the design's DaemonEffect,
    with the field names [executeDaemonEvent] reads.  The driver switches on
    these five pointer types; [OtherDaemonEvent] stands for any other value
    of the [DaemonEvent] interface. *)
Inductive DaemonEvent :=
| SendMsgEvent (TargetPeer : PublicKey) (Msgs : list Message)
    (SendWhen : option SendPredicate) (PostSendEvent : option Event)
| DisableChannelEvent (ChanPoint : OutPoint)
| BroadcastTxn (Tx : MsgTx) (Label : string)
| RegisterSpend (OutPoint_ : OutPoint) (PkScript : list Byte.byte)
    (HeightHint : Z) (PostSpendEvent : option Event)
| RegisterConf (Txid : Hash) (PkScript : list Byte.byte) (HeightHint : Z)
    (NumConfs : option Z) (PostConfEvent : option Event)
| OtherDaemonEvent.

Definition DaemonEventSet := list DaemonEvent.

Definition kindOf (d : DaemonEvent) : DaemonEventKind :=
  match d with
  | SendMsgEvent _ _ _ _ => KSendMsgEvent
  | DisableChannelEvent _ => KDisableChannelEvent
  | BroadcastTxn _ _ => KBroadcastTxn
  | RegisterSpend _ _ _ _ => KRegisterSpend
  | RegisterConf _ _ _ _ _ => KRegisterConf
  | OtherDaemonEvent => KOther
  end.

Record EmittedEvent := {
  InternalEvent : option Event;
  ExternalEvents : option DaemonEventSet
}.

(** Modelled from the spec: [MsgMapper[Event]] is declared outside the two
    files; it has the single capability [MapMsg], from a wire message to an
    optional event. *)
Definition MsgMapper := Message -> option Event.

(** What the driver asks of the adapter, with the arguments it passes. *)
Inductive AdapterCall :=
| CallSendMessages (peer : PublicKey) (msgs : list Message)
| CallBroadcastTransaction (tx : MsgTx) (label : string)
| CallDisableChannel (op : OutPoint)
| CallRegisterConfirmationsNtfn (txid : Hash) (pkScript : list Byte.byte)
    (numConfs heightHint : Z)
| CallRegisterSpendNtfn (op : OutPoint) (pkScript : list Byte.byte)
    (heightHint : Z).

(** The goroutines the driver launches. *)
Inductive Task :=
| TaskSendEvent (e : Event)               (* go s.SendEvent(event) *)
| TaskPollSendWhen (d : DaemonEvent)      (* ticker loop on SendWhen *)
| TaskAwaitSpend (ntfn : SpendEvent) (post : option Event)
| TaskAwaitConf (ntfn : ConfirmationEvent) (post : option Event)
| TaskStop.                               (* go s.Stop() *)
End Events.

Arguments DisableChannelEvent {_ _} _.
Arguments BroadcastTxn {_ _} _ _.
Arguments OtherDaemonEvent {_ _}.
Arguments TaskStop {_ _}.

(** The [DaemonAdapters] interface over an adapter state [A]. *)
Class DaemonAdapters `{Externals} (A : Type) := {
  SendMessages : PublicKey -> list Message -> A -> option error * A;
  BroadcastTransaction : MsgTx -> string -> A -> option error * A;
  DisableChannel : OutPoint -> A -> option error * A;
  RegisterConfirmationsNtfn :
    Hash -> list Byte.byte -> Z -> Z -> A -> (ConfirmationEvent + error) * A;
  RegisterSpendNtfn :
    OutPoint -> list Byte.byte -> Z -> A -> (SpendEvent + error) * A
}.

(** The [Environment] interface. *)
Class Environment `{Externals} (Env : Type) := {
  CleanUp : Env -> option error;
  Name : Env -> string
}.

Section Transitions.
Context `{Externals}.
Variables Event Env St : Type.

Record StateTransition := {
  NextState : St;
  NewEvents : option (EmittedEvent Event)
}.

(** The [State] interface: the transition function and the terminal
    flag. *)
Class State := {
  ProcessEvent : St -> Event -> Env -> StateTransition + error;
  IsTerminal : St -> bool
}.
End Transitions.

Arguments ProcessEvent {_ _ _ _ _} _ _ _.
Arguments IsTerminal {_ _ _ _ _} _.

Section Machine.
Context `{Externals}.
Context {Event Env St A : Type}.
Context {EnvI : Environment Env}.
Context {StateI : State Event Env St}.
Context {Daemon : DaemonAdapters A}.

(** What an execution leaves behind, in order. *)
Inductive Obs :=
| ObsProcess (s : St) (e : Event)     (* ProcessEvent called *)
| ObsExec (d : DaemonEvent Event)     (* executeDaemonEvent entered *)
| ObsCall (c : AdapterCall)           (* adapter method called *)
| ObsSpawn (t : Task Event)           (* goroutine launched *)
| ObsEnqueue (e : Event)              (* eventQueue.Enqueue *)
| ObsNotify (s : St)                  (* newStateEvents.NotifySubscribers *)
| ObsReport (err : error)             (* ErrorReporter.ReportError *)
| ObsCleanUp (r : option error)       (* Env.CleanUp, and what it returned *)
| ObsReply (s : St).                  (* state sent to a stateQuery *)

Record World := {
  daemon : A;
  trace : list Obs
}.

Definition record (o : Obs) (w : World) : World :=
  {| daemon := daemon w; trace := trace w ++ [o] |}.

Definition setDaemon (a : A) (w : World) : World :=
  {| daemon := a; trace := trace w |}.

Record StateMachineCfg := {
  InitialState : St;
  Env_ : Env;
  InitEvent : option (DaemonEvent Event);
  MsgMapper_ : option (MsgMapper Event)
}.

Variable cfg : StateMachineCfg.

(** *** executeDaemonEvent *)

(** The closure [sendAndCleanUp] of the [SendMsgEvent] case. *)
Definition sendAndCleanUp (peer : PublicKey) (msgs : list Message)
    (post : option Event) (w : World) : option error * World :=
  let '(r, a) := SendMessages peer msgs (daemon w) in
  let w1 := setDaemon a (record (ObsCall (CallSendMessages peer msgs)) w) in
  match r with
  | Some err => (Some (Errorf "unable to send msgs" err), w1)
  | None =>
      (None,
       match post with
       | Some e => record (ObsSpawn (TaskSendEvent e)) w1
       | None => w1
       end)
  end.

(** The [switch] of [executeDaemonEvent].  [Some r]: a case returned
    [r]; [None]: control left the [switch] without a [return]. *)
Definition daemonSwitch (event : DaemonEvent Event) (w : World)
    : option (option error) * World :=
  match event with
  | SendMsgEvent peer msgs sendWhen post =>
      if negb (fn.IsSome sendWhen) then
        let '(r, w1) := sendAndCleanUp peer msgs post w in (Some r, w1)
      else
        (Some None, record (ObsSpawn (TaskPollSendWhen event)) w)
  | DisableChannelEvent cp =>
      let '(r, a) := DisableChannel cp (daemon w) in
      let w1 := setDaemon a (record (ObsCall (CallDisableChannel cp)) w) in
      match r with
      | Some err => (Some (Some (Errorf "unable to disable channel" err)), w1)
      | None => (Some None, w1)
      end
  | BroadcastTxn tx label =>
      let '(r, a) := BroadcastTransaction tx label (daemon w) in
      let w1 :=
        setDaemon a (record (ObsCall (CallBroadcastTransaction tx label)) w) in
      match r with
      | Some err => (Some (Some (Errorf "unable to broadcast txn" err)), w1)
      | None => (Some None, w1)
      end
  | RegisterSpend op script hint post =>
      let '(r, a) := RegisterSpendNtfn op script hint (daemon w) in
      let w1 :=
        setDaemon a (record (ObsCall (CallRegisterSpendNtfn op script hint)) w) in
      match r with
      | inr err => (Some (Some (Errorf "unable to register spend" err)), w1)
      | inl spendEvent =>
          (Some None, record (ObsSpawn (TaskAwaitSpend spendEvent post)) w1)
      end
  | RegisterConf txid script hint numConfsOpt post =>
      let numConfs := fn.UnwrapOr numConfsOpt 1 in
      let '(r, a) :=
        RegisterConfirmationsNtfn txid script numConfs hint (daemon w) in
      let w1 :=
        setDaemon a
          (record
             (ObsCall (CallRegisterConfirmationsNtfn txid script numConfs hint))
             w) in
      match r with
      | inr err => (Some (Some (Errorf "unable to register conf" err)), w1)
      | inl confEvent =>
          (* the case ends here, without a return *)
          (None, record (ObsSpawn (TaskAwaitConf confEvent post)) w1)
      end
  | OtherDaemonEvent => (None, w)
  end.

Definition executeDaemonEvent (event : DaemonEvent Event) (w : World)
    : option error * World :=
  match daemonSwitch event (record (ObsExec event) w) with
  | (Some r, w1) => (r, w1)
  | (None, w1) => (Some (ErrUnknownDaemonEvent (kindOf event)), w1)
  end.

(** *** applyEvents *)

(** The variables the loop body of [applyEvents] captures and
    updates. *)
Record LoopState := {
  currentState : St;
  eventQueue : fn.Queue Event;
  world : World
}.

(** The [for _, dEvent := range dEvents] loop, left at the first
    error. *)
Fixpoint execDaemonEvents (dEvents : DaemonEventSet Event) (w : World)
    : option error * World :=
  match dEvents with
  | [] => (None, w)
  | dEvent :: rest =>
      match executeDaemonEvent dEvent w with
      | (Some err, w1) => (Some err, w1)
      | (None, w1) => execDaemonEvents rest w1
      end
  end.

(** The closure applied to [transition.NewEvents]: the external events
    first, then the internal event goes to the queue. *)
Definition emitEvents (events : EmittedEvent Event)
    (q : fn.Queue Event) (w : World)
    : option error * fn.Queue Event * World :=
  match
    fn.MapOptionZ (fun w0 => (None, w0)) (ExternalEvents events)
      execDaemonEvents w
  with
  | (Some err, w1) => (Some err, q, w1)
  | (None, w1) =>
      match InternalEvent events with
      | Some inEvent =>
          (None, fn.Enqueue q inEvent, record (ObsEnqueue inEvent) w1)
      | None => (None, q, w1)
      end
  end.

(** The closure applied to the dequeued event: one transition. *)
Definition applyOne (event : Event) (ls : LoopState)
    : option error * LoopState :=
  let cur := currentState ls in
  let w0 := record (ObsProcess cur event) (world ls) in
  match ProcessEvent cur event (Env_ cfg) with
  | inr err =>
      (Some err,
       {| currentState := cur; eventQueue := eventQueue ls; world := w0 |})
  | inl transition =>
      match
        fn.MapOptionZ (fun q w => (None, q, w)) (NewEvents transition)
          emitEvents (eventQueue ls) w0
      with
      | (Some err, q1, w1) =>
          (Some err,
           {| currentState := cur; eventQueue := q1; world := w1 |})
      | (None, q1, w1) =>
          let next := NextState transition in
          (None,
           {| currentState := next; eventQueue := q1;
              world := record (ObsNotify next) w1 |})
      end
  end.

(** How a run of the loop ends: it returned, or the fuel given to the
    model ran out with the queue not yet empty. *)
Inductive LoopResult :=
| Finished (st : St) (err : option error)
| OutOfFuel (st : St) (pending : fn.Queue Event).

Fixpoint applyLoop (fuel : nat) (ls : LoopState) : LoopResult * World :=
  match fn.Dequeue (eventQueue ls) with
  | (None, _) => (Finished (currentState ls) None, world ls)
  | (Some nextEvent, q) =>
      match fuel with
      | O => (OutOfFuel (currentState ls) (eventQueue ls), world ls)
      | S fuel' =>
          match
            applyOne nextEvent
              {| currentState := currentState ls; eventQueue := q;
                 world := world ls |}
          with
          | (Some err, ls1) =>
              (Finished (currentState ls1) (Some err), world ls1)
          | (None, ls1) => applyLoop fuel' ls1
          end
      end
  end.

Definition applyEvents (fuel : nat) (cur : St) (newEvent : Event)
    (w : World) : LoopResult * World :=
  applyLoop fuel
    {| currentState := cur; eventQueue := fn.NewQueue newEvent;
       world := w |}.

(** *** driveMachine *)

(** What the [select] of the main loop picks, one entry per round.  A
    state query carries the branch taken by the reply's
    [fn.SendOrQuit]. *)
Inductive Select :=
| SelEvent (newEvent : Event)
| SelStateQuery (reply : fn.Pick)
| SelQuit.

(** Where the driver is when the schedule is used up. *)
Inductive DriverStatus :=
| Waiting (cur : St)     (* blocked in the select, still running *)
| Returned               (* driveMachine returned *)
| Spinning.              (* inside a burst the fuel did not cover *)

Fixpoint driveLoop (fuel : nat) (cur : St) (sched : list Select)
    (w : World) : DriverStatus * World :=
  match sched with
  | [] => (Waiting cur, w)
  | SelEvent newEvent :: rest =>
      match applyEvents fuel cur newEvent w with
      | (OutOfFuel _ _, w1) => (Spinning, w1)
      | (Finished _ (Some err), w1) =>
          (Returned,
           record (ObsSpawn TaskStop) (record (ObsReport err) w1))
      | (Finished newState None, w1) =>
          let w2 :=
            if IsTerminal newState
            then record (ObsCleanUp (CleanUp (Env_ cfg))) w1
            else w1 in
          driveLoop fuel newState rest w2
      end
  | SelStateQuery reply :: rest =>
      if negb (fn.SendOrQuit reply) then (Returned, w)
      else driveLoop fuel cur rest (record (ObsReply cur) w)
  | SelQuit :: _ => (Returned, w)
  end.

Definition driveMachine (fuel : nat) (sched : list Select) (w : World)
    : DriverStatus * World :=
  let cur := InitialState cfg in
  match
    fn.MapOptionZ (fun w0 => (None, w0)) (InitEvent cfg)
      executeDaemonEvent w
  with
  | (Some _, w1) => (Returned, w1)
  | (None, w1) => driveLoop fuel cur sched (record (ObsNotify cur) w1)
  end.

(** *** The handle: SendEvent, CanHandle, SendMessage, CurrentState *)

(** [events] is what the [events] channel has been handed so far; the
    pick is the branch of the [select]. *)
Definition SendEvent (p : fn.Pick) (event : Event) (events : list Event)
    : list Event :=
  match p with
  | fn.PickSend => events ++ [event]
  | fn.PickQuit => events
  end.

Definition CanHandle (msg : Message) : bool :=
  fn.MapOptionZ false (MsgMapper_ cfg)
    (fun mapper => fn.IsSome (mapper msg)).

Definition SendMessage (p : fn.Pick) (msg : Message)
    (events : list Event) : bool * list Event :=
  if negb (fn.IsSome (MsgMapper_ cfg)) then (false, events)
  else
    let processed := false in
    match MsgMapper_ cfg with
    | Some mapper =>
        match mapper msg with
        | Some event => (true, SendEvent p event events)
        | None => (processed, events)
        end
    | None => (processed, events)
    end.

(** [accepted]: the branch of the [fn.SendOrQuit] that hands the query
    to the driver; [arrived]: what the reply channel delivered within
    the second. *)
Definition CurrentState (accepted : fn.Pick) (arrived : option St)
    : St + error :=
  if negb (fn.SendOrQuit accepted) then inr ErrShuttingDown
  else RecvOrTimeout arrived.

(** *** Reading a trace *)

Definition isCleanUp (o : Obs) : bool :=
  match o with ObsCleanUp _ => true | _ => false end.

(** The number of [Env.CleanUp] calls. *)
Definition cleanups (tr : list Obs) : nat :=
  List.length (filter isCleanUp tr).

(** The states published to the subscribers, in order. *)
Fixpoint notified (tr : list Obs) : list St :=
  match tr with
  | [] => []
  | ObsNotify s :: tr' => s :: notified tr'
  | _ :: tr' => notified tr'
  end.

(** The state of the last commit in [tr], or [dflt] when there is none. *)
Definition lastCommitted (dflt : St) (tr : list Obs) : St :=
  last (notified tr) dflt.

Fixpoint processed (tr : list Obs) : list Event :=
  match tr with
  | [] => []
  | ObsProcess _ e :: tr' => e :: processed tr'
  | _ :: tr' => processed tr'
  end.

Fixpoint enqueued (tr : list Obs) : list Event :=
  match tr with
  | [] => []
  | ObsEnqueue e :: tr' => e :: enqueued tr'
  | _ :: tr' => enqueued tr'
  end.

(** The steps of the driver itself, without what the adapter and the
    goroutines add. *)
Definition isDriverStep (o : Obs) : bool :=
  match o with
  | ObsCall _ | ObsSpawn _ => false
  | _ => true
  end.

Definition driverView (tr : list Obs) : list Obs := filter isDriverStep tr.

(** The external and internal events of a transition, as lists. *)
Definition externalsOf (t : StateTransition Event St)
    : list (DaemonEvent Event) :=
  match NewEvents t with
  | Some events => fn.UnwrapOr (ExternalEvents events) []
  | None => []
  end.

Definition internalOf (t : StateTransition Event St) : list Event :=
  match NewEvents t with
  | Some events =>
      match InternalEvent events with Some e => [e] | None => [] end
  | None => []
  end.

(** The ordering the burst is specified to follow (the design's
    [apply_events]), as the set of driver views a burst from state [cur]
    with queue [q] may leave, together with how it ended:
    a transition's effects in the order emitted, then its internal event put
    at the tail of the queue, then the commit; the head of the queue is
    what is processed next. *)
Inductive Burst : St -> list Event -> list Obs -> LoopResult -> Prop :=
| Burst_drained cur :
    Burst cur [] [] (Finished cur None)
| Burst_cut cur e q :
    Burst cur (e :: q) [] (OutOfFuel cur (e :: q))
| Burst_transition_error cur e q err :
    ProcessEvent cur e (Env_ cfg) = inr err ->
    Burst cur (e :: q) [ObsProcess cur e] (Finished cur (Some err))
| Burst_effect_error cur e q t before d after err :
    ProcessEvent cur e (Env_ cfg) = inl t ->
    externalsOf t = before ++ d :: after ->
    Burst cur (e :: q)
      (ObsProcess cur e :: map ObsExec (before ++ [d]))
      (Finished cur (Some err))
| Burst_commit cur e q t tr res :
    ProcessEvent cur e (Env_ cfg) = inl t ->
    Burst (NextState t) (q ++ internalOf t) tr res ->
    Burst cur (e :: q)
      (ObsProcess cur e
         :: map ObsExec (externalsOf t)
         ++ map ObsEnqueue (internalOf t)
         ++ ObsNotify (NextState t) :: tr)
      res.



(** The transition of [cur] on [e], started in world [w], fails with [err]
    and leaves world [w']: either [ProcessEvent] returned [err], or it
    emitted effects of which those in [done] went through and the next one,
    [d], returned [err]. *)
Definition TransitionFails (cur : St) (e : Event) (w : World) (err : error)
    (w' : World) : Prop :=
  (ProcessEvent cur e (Env_ cfg) = inr err /\
   w' = record (ObsProcess cur e) w) \/
  (exists t done d after wd,
     ProcessEvent cur e (Env_ cfg) = inl t /\
     externalsOf t = done ++ d :: after /\
     execDaemonEvents done (record (ObsProcess cur e) w) = (None, wd) /\
     executeDaemonEvent d wd = (Some err, w')).

(** [BurstReaches n ls ls']: [n] transitions of the loop went through and
    took the loop variables from [ls] to [ls']. *)
Inductive BurstReaches : nat -> LoopState -> LoopState -> Prop :=
| Reaches_here ls : BurstReaches O ls ls
| Reaches_step n cur e q w ls1 ls2 :
    applyOne e {| currentState := cur; eventQueue := q; world := w |}
      = (None, ls1) ->
    BurstReaches n ls1 ls2 ->
    BurstReaches (S n)
      {| currentState := cur; eventQueue := e :: q; world := w |} ls2.

(** *** Adapter calls, effects and commits in a trace *)

Fixpoint calls (tr : list Obs) : list AdapterCall :=
  match tr with
  | [] => []
  | ObsCall c :: tr' => c :: calls tr'
  | _ :: tr' => calls tr'
  end.

Fixpoint execs (tr : list Obs) : list (DaemonEvent Event) :=
  match tr with
  | [] => []
  | ObsExec d :: tr' => d :: execs tr'
  | _ :: tr' => execs tr'
  end.

(** The adapter state a call leaves behind. *)
Definition perform (c : AdapterCall) (a : A) : A :=
  match c with
  | CallSendMessages peer msgs => snd (SendMessages peer msgs a)
  | CallBroadcastTransaction tx label => snd (BroadcastTransaction tx label a)
  | CallDisableChannel op => snd (DisableChannel op a)
  | CallRegisterConfirmationsNtfn txid pkScript numConfs heightHint =>
      snd (RegisterConfirmationsNtfn txid pkScript numConfs heightHint a)
  | CallRegisterSpendNtfn op pkScript heightHint =>
      snd (RegisterSpendNtfn op pkScript heightHint a)
  end.

(** The adapter call that executing an effect makes before
    [executeDaemonEvent] returns: none for a send that waits on a
    predicate, none for an unknown event. *)
Definition callsOf (d : DaemonEvent Event) : list AdapterCall :=
  match d with
  | SendMsgEvent peer msgs None _ => [CallSendMessages peer msgs]
  | SendMsgEvent _ _ (Some _) _ => []
  | DisableChannelEvent cp => [CallDisableChannel cp]
  | BroadcastTxn tx label => [CallBroadcastTransaction tx label]
  | RegisterSpend op script hint _ => [CallRegisterSpendNtfn op script hint]
  | RegisterConf txid script hint numConfs _ =>
      [CallRegisterConfirmationsNtfn txid script (fn.UnwrapOr numConfs 1) hint]
  | OtherDaemonEvent => []
  end.





(** A schedule without its answered state queries. *)
Definition isAnswered (sel : Select) : bool :=
  match sel with SelStateQuery fn.PickSend => true | _ => false end.

Definition dropQueries (sched : list Select) : list Select :=
  filter (fun sel => negb (isAnswered sel)) sched.

Definition isReply (o : Obs) : bool :=
  match o with ObsReply _ => true | _ => false end.

Definition dropReplies (tr : list Obs) : list Obs :=
  filter (fun o => negb (isReply o)) tr.

(** [w'] comes after [w], and between the two the adapter was called exactly
    as the effects executed ask, in their order, and was left in the state
    these calls produce. *)
Definition AdapterFollows (w w' : World) : Prop :=
  exists tr,
    trace w' = trace w ++ tr /\
    calls tr = flat_map callsOf (execs tr) /\
    daemon w' = fold_left (fun a c => perform c a) (calls tr) (daemon w).

(** *** Effects with their adapter calls, and bursts that run *)

(** The steps of a trace that the driver's goroutine takes in turn: all but
    the launches of other goroutines. *)
Definition isStep (o : Obs) : bool :=
  match o with ObsSpawn _ => false | _ => true end.

Definition stepsView (tr : list Obs) : list Obs := filter isStep tr.

(** Executing the effects [ds] one after another: for each, the entry into
    [executeDaemonEvent] and then the adapter call it makes. *)
Definition effectSteps (ds : list (DaemonEvent Event)) : list Obs :=
  flat_map (fun d => ObsExec d :: map ObsCall (callsOf d)) ds.


(** The poller goroutines launched, by the send they wait for. *)
Fixpoint pollers (tr : list Obs) : list (DaemonEvent Event) :=
  match tr with
  | [] => []
  | ObsSpawn (TaskPollSendWhen d) :: tr' => d :: pollers tr'
  | _ :: tr' => pollers tr'
  end.

Definition isPredicatedSend (d : DaemonEvent Event) : bool :=
  match d with
  | SendMsgEvent _ _ (Some _) _ => true
  | _ => false
  end.

(** The entries into [executeDaemonEvent] and the adapter calls of a
    trace. *)
Definition isExecOrCall (o : Obs) : bool :=
  match o with ObsExec _ | ObsCall _ => true | _ => false end.

Definition effectView (tr : list Obs) : list Obs := filter isExecOrCall tr.

(** What [applyEvents] and [driveMachine] record themselves, outside
    [executeDaemonEvent]. *)
Definition byDriverLoop (o : Obs) : bool :=
  match o with
  | ObsProcess _ _ | ObsEnqueue _ | ObsNotify _ | ObsReport _
  | ObsCleanUp _ | ObsReply _ | ObsSpawn TaskStop => true
  | _ => false
  end.

(** [w'] comes after [w], and in between every adapter call the driver made
    is the call of an effect it executed, placed directly after the entry
    into [executeDaemonEvent] for that effect, and the pollers it launched
    are those of the predicated sends it executed, in their order. *)
Definition EffectsFollow (w w' : World) : Prop :=
  exists tr,
    trace w' = trace w ++ tr /\
    effectView tr = effectSteps (execs tr) /\
    pollers tr = filter isPredicatedSend (execs tr).

(** *** CurrentState against a running driver *)

(** What the driver puts on the channel of a state query that it takes
    after the schedule [before]: the reply it records in that round, if
    any. *)
Definition replySent (fuel : nat) (before : list Select) (reply : fn.Pick)
    (w : World) : option St :=
  match
    skipn (List.length (trace (snd (driveMachine fuel before w))))
      (trace
         (snd (driveMachine fuel (before ++ [SelStateQuery reply]) w)))
  with
  | [ObsReply s] => Some s
  | _ => None
  end.

(** A call of [CurrentState] made when the driver has gone through
    [before].  [accepted] is the branch of the caller's [fn.SendOrQuit],
    [reply] the branch of the driver's, [inTime] whether the reply is there
    within the second.  The send branch of the caller can only fire when the
    driver is in its [select] to take the query; [None]: the call does not
    return that way (nobody takes the query). *)
Definition CurrentStateAfter (fuel : nat) (before : list Select)
    (accepted reply : fn.Pick) (inTime : bool) (w : World)
    : option (St + error) :=
  match accepted with
  | fn.PickQuit => Some (CurrentState fn.PickQuit None)
  | fn.PickSend =>
      match fst (driveMachine fuel before w) with
      | Waiting _ =>
          Some (CurrentState fn.PickSend
                  (if inTime then replySent fuel before reply w else None))
      | _ => None
      end
  end.

(** The same world with [pre] put before its trace. *)
Definition prepend (pre : list Obs) (w : World) : World :=
  {| daemon := daemon w; trace := pre ++ trace w |}.

End Machine.

(** *** Start and Stop *)

(** The two [sync.Once] of a [StateMachine], with what their functions did:
    the driver goroutines launched and the times [quit] was closed. *)
Record Latches := {
  startOnce : bool;
  stopOnce : bool;
  driversLaunched : nat;
  quitClosed : nat
}.

(** As [NewStateMachine] leaves them. *)
Definition NewLatches : Latches :=
  {| startOnce := false; stopOnce := false;
     driversLaunched := O; quitClosed := O |}.

Definition Start (s : Latches) : Latches :=
  if startOnce s then s
  else {| startOnce := true; stopOnce := stopOnce s;
          driversLaunched := S (driversLaunched s);
          quitClosed := quitClosed s |}.

Definition Stop (s : Latches) : Latches :=
  if stopOnce s then s
  else {| startOnce := startOnce s; stopOnce := true;
          driversLaunched := driversLaunched s;
          quitClosed := S (quitClosed s) |}.

Inductive LifecycleCall := DoStart | DoStop.

Definition isStart (c : LifecycleCall) : bool :=
  match c with DoStart => true | DoStop => false end.

Definition isStop (c : LifecycleCall) : bool :=
  match c with DoStart => false | DoStop => true end.

Definition lifecycle (cs : list LifecycleCall) (s : Latches) : Latches :=
  fold_left
    (fun s c => match c with DoStart => Start s | DoStop => Stop s end) cs s.

End protofsm.

(** ** lnwallet/chancloser: the RBF cooperative close states *)

Module chancloser.

(** Types of [lnwire] that the states only carry. *)
Class Wire := {
  ClosingSig : Type;        (* lnwire.ClosingSig *)
  ClosingComplete : Type;   (* lnwire.ClosingComplete *)
  Sig : Type                (* lnwire.Sig *)
}.

Definition MilliSatoshi := Z.                  (* lnwire.MilliSatoshi, uint64 *)
Definition Amount := Z.                        (* btcutil.Amount, int64 *)
Definition SatPerVByte := Z.                   (* chainfee.SatPerVByte *)
Definition DeliveryAddress := list Byte.byte.  (* lnwire.DeliveryAddress *)

Record ShutdownBalances := {
  LocalBalance : MilliSatoshi;
  RemoteBalance : MilliSatoshi
}.

Record ShutdownScripts := {
  LocalDeliveryScript : DeliveryAddress;
  RemoteDeliveryScript : DeliveryAddress
}.

(** [CloseChannelTerms] embeds the balances and the scripts. *)
Record CloseChannelTerms := {
  Balances : ShutdownBalances;
  Scripts : ShutdownScripts
}.

(** [wire.TxOut]. *)
Record TxOut := {
  PkScript : list Byte.byte;
  Value : Z
}.

Section Protocol.
Context `{protofsm.Externals} `{Wire}.

(** *** Events.  The [fromState] and [toState] fields of the source are nil
    pointers kept as documentation of the graph and carry no data. *)
Inductive ProtocolEvent :=
| SpendEvent (Tx : protofsm.MsgTx) (BlockHeight : Z)
| SendShutdown (IdealFeeRate : SatPerVByte)
    (DeliveryAddr : option DeliveryAddress)
| ShutdownReceived (BlockHeight : Z) (ShutdownScript : DeliveryAddress)
| ShutdownComplete
| ChannelFlushed (FreshFlush : bool) (balances : ShutdownBalances)
| SendOfferEvent (TargetFeeRate : SatPerVByte)
| LocalSigReceived (SigMsg : ClosingSig)
| OfferReceivedEvent (SigMsg : ClosingComplete).

(** *** States, one record per struct (data fields only). *)
Record ChannelActive := {
  ca_outputDaemonEvents : option (protofsm.DaemonEvent ProtocolEvent)
}.

Record ShutdownPending := {
  sp_Scripts : ShutdownScripts;
  sp_IdealFeeRate : option SatPerVByte
}.

Record ChannelFlushing := {
  EarlyRemoteOffer : option ClosingComplete;   (* the stashed offer's SigMsg *)
  cf_Scripts : ShutdownScripts;
  cf_IdealFeeRate : option SatPerVByte
}.

Record LocalCloseStart := {
  targetFeeRate : SatPerVByte;
  lcs_Terms : CloseChannelTerms
}.

Record LocalOfferSent := {
  ProposedFee : Amount;
  ProposedFeeRate : SatPerVByte;
  LocalSig : Sig;
  los_Terms : CloseChannelTerms
}.

Record ClosePending := {
  CloseTx : protofsm.MsgTx;
  FeeRate : SatPerVByte
}.

Record CloseFin := {
  ConfirmedTx : protofsm.MsgTx
}.

Record RemoteCloseStart := {
  peerPub : protofsm.PublicKey;
  rcs_Terms : CloseChannelTerms
}.

(** The types with a [ShouldRouteTo] method, as values of the
    [AsymmetricPeerState] interface. *)
Inductive AsymmetricPeerState :=
| AsLocalCloseStart (l : LocalCloseStart)
| AsLocalOfferSent (l : LocalOfferSent)
| AsClosePending (c : ClosePending)
| AsRemoteCloseStart (l : RemoteCloseStart).

Record DualPeerState := {
  LocalState : AsymmetricPeerState;
  RemoteState : AsymmetricPeerState
}.

Record ClosingNegotiation := {
  PeerState : DualPeerState
}.

(** The nine types of [ProtocolStates], as values of the [ProtocolState]
    interface. *)
Inductive ProtocolState :=
| OfChannelActive (c : ChannelActive)
| OfShutdownPending (s : ShutdownPending)
| OfChannelFlushing (c : ChannelFlushing)
| OfClosingNegotiation (c : ClosingNegotiation)
| OfLocalCloseStart (l : LocalCloseStart)
| OfLocalOfferSent (l : LocalOfferSent)
| OfRemoteCloseStart (l : RemoteCloseStart)
| OfClosePending (c : ClosePending)
| OfCloseFin (c : CloseFin).

(** *** IsTerminal, method by method *)
Definition ChannelActive_IsTerminal (c : ChannelActive) : bool := false.
Definition ShutdownPending_IsTerminal (s : ShutdownPending) : bool := false.
Definition ChannelFlushing_IsTerminal (c : ChannelFlushing) : bool := false.
Definition ClosingNegotiation_IsTerminal (c : ClosingNegotiation) : bool :=
  false.
Definition LocalCloseStart_IsTerminal (l : LocalCloseStart) : bool := false.
Definition LocalOfferSent_IsTerminal (l : LocalOfferSent) : bool := false.
Definition ClosePending_IsTerminal (c : ClosePending) : bool := true.
Definition CloseFin_IsTerminal (c : CloseFin) : bool := true.
Definition RemoteCloseStart_IsTerminal (c : RemoteCloseStart) : bool := false.

(** The interface call. *)
Definition IsTerminal (s : ProtocolState) : bool :=
  match s with
  | OfChannelActive c => ChannelActive_IsTerminal c
  | OfShutdownPending s => ShutdownPending_IsTerminal s
  | OfChannelFlushing c => ChannelFlushing_IsTerminal c
  | OfClosingNegotiation c => ClosingNegotiation_IsTerminal c
  | OfLocalCloseStart l => LocalCloseStart_IsTerminal l
  | OfLocalOfferSent l => LocalOfferSent_IsTerminal l
  | OfRemoteCloseStart l => RemoteCloseStart_IsTerminal l
  | OfClosePending c => ClosePending_IsTerminal c
  | OfCloseFin c => CloseFin_IsTerminal c
  end.

(** *** ShouldRouteTo, method by method: a type switch on the event. *)
Definition LocalCloseStart_ShouldRouteTo (l : LocalCloseStart)
    (event : ProtocolEvent) : bool :=
  match event with
  | SendOfferEvent _ => true
  | _ => false
  end.

Definition LocalOfferSent_ShouldRouteTo (l : LocalOfferSent)
    (event : ProtocolEvent) : bool :=
  match event with
  | LocalSigReceived _ => true
  | _ => false
  end.

Definition ClosePending_ShouldRouteTo (c : ClosePending)
    (event : ProtocolEvent) : bool :=
  match event with
  | SpendEvent _ _ => true
  | _ => false
  end.

Definition RemoteCloseStart_ShouldRouteTo (l : RemoteCloseStart)
    (event : ProtocolEvent) : bool :=
  match event with
  | OfferReceivedEvent _ => true
  | _ => false
  end.

Definition ShouldRouteTo (s : AsymmetricPeerState) (event : ProtocolEvent)
    : bool :=
  match s with
  | AsLocalCloseStart l => LocalCloseStart_ShouldRouteTo l event
  | AsLocalOfferSent l => LocalOfferSent_ShouldRouteTo l event
  | AsClosePending c => ClosePending_ShouldRouteTo c event
  | AsRemoteCloseStart l => RemoteCloseStart_ShouldRouteTo l event
  end.

End Protocol.

(** *** Close terms: outputs, dust, fees *)
Section Terms.

(** [lnwire.MilliSatoshi.ToSatoshis] and [lnwallet.DustLimitForSize] live in
    packages outside these two files; the close terms are taken over any
    such pair of functions. *)
Variable ToSatoshis : MilliSatoshi -> Amount.
Variable DustLimitForSize : Z -> Amount.

Definition len (pkScript : list Byte.byte) : Z := Z.of_nat (List.length pkScript).

(** The closure [deriveTxOut] of [DeriveCloseTxOuts]; a nil [*wire.TxOut] is
    [None]. *)
Definition deriveTxOut (balance : Amount) (pkScript : list Byte.byte)
    : option TxOut :=
  let dustLimit := DustLimitForSize (len pkScript) in
  if balance >? dustLimit then
    Some {| PkScript := pkScript; Value := balance |}
  else None.

Definition DeriveCloseTxOuts (c : CloseChannelTerms)
    : option TxOut * option TxOut :=
  let localTxOut :=
    deriveTxOut (ToSatoshis (LocalBalance (Balances c)))
      (LocalDeliveryScript (Scripts c)) in
  let remoteTxOut :=
    deriveTxOut (ToSatoshis (RemoteBalance (Balances c)))
      (RemoteDeliveryScript (Scripts c)) in
  (localTxOut, remoteTxOut).

Definition RemoteAmtIsDust (c : CloseChannelTerms) : bool :=
  ToSatoshis (RemoteBalance (Balances c))
  <? DustLimitForSize (len (RemoteDeliveryScript (Scripts c))).

Definition LocalAmtIsDust (c : CloseChannelTerms) : bool :=
  ToSatoshis (LocalBalance (Balances c))
  <? DustLimitForSize (len (LocalDeliveryScript (Scripts c))).

Definition LocalCanPayFees (c : CloseChannelTerms) (absoluteFee : Amount)
    : bool :=
  ToSatoshis (LocalBalance (Balances c)) >=? absoluteFee.

Definition RemoteCanPayFees (c : CloseChannelTerms) (absoluteFee : Amount)
    : bool :=
  ToSatoshis (RemoteBalance (Balances c)) >=? absoluteFee.

(** The same terms seen from the other side of the channel. *)
Definition swapSides (c : CloseChannelTerms) : CloseChannelTerms :=
  {| Balances :=
       {| LocalBalance := RemoteBalance (Balances c);
          RemoteBalance := LocalBalance (Balances c) |};
     Scripts :=
       {| LocalDeliveryScript := RemoteDeliveryScript (Scripts c);
          RemoteDeliveryScript := LocalDeliveryScript (Scripts c) |} |}.

End Terms.

(** *** The spend mapper and the environment *)
Section Mapper.
Context `{protofsm.Externals} `{Wire}.

(** Modelled from the spec: [chainntnfs.SpendDetail] is declared outside the
    two files; of what a spend notification delivers, the spending
    transaction and the spending height (an int32) are the fields
    [SpendMapper] reads. *)
Record SpendDetail := {
  SpendingTx : protofsm.MsgTx;
  SpendingHeight : Z
}.

(** The conversion [uint32(x)]. *)
Definition uint32 (x : Z) : Z := x mod 2 ^ 32.

Definition SpendMapper (spendEvent : SpendDetail) : ProtocolEvent :=
  SpendEvent (SpendingTx spendEvent) (uint32 (SpendingHeight spendEvent)).

(** Types of other packages that the environment only holds. *)
Class EnvTypes := {
  ChainParams : Type;        (* chaincfg.Params *)
  ChannelID : Type;          (* lnwire.ChannelID *)
  ShortChannelID : Type;     (* lnwire.ShortChannelID *)
  ChannelType : Type;        (* channeldb.ChannelType *)
  CoopFeeEstimator : Type;
  ChanStateObserver : Type;
  CloseSigner : Type;
  (* how [%v] prints a [wire.OutPoint] *)
  OutPointString : protofsm.OutPoint -> string
}.

Context `{EnvTypes}.

Record Environment := {
  ChainParams_ : ChainParams;
  ChanPeer : protofsm.PublicKey;
  ChanPoint : protofsm.OutPoint;
  ChanID : ChannelID;
  Scid : ShortChannelID;
  ChanType : ChannelType;
  DefaultFeeRate : SatPerVByte;
  ThawHeight : option Z;
  RemoteUpfrontShutdown : option DeliveryAddress;
  LocalUpfrontShutdown : option DeliveryAddress;
  NewDeliveryScript : unit -> DeliveryAddress + protofsm.error;
  FeeEstimator : CoopFeeEstimator;
  ChanObserver : ChanStateObserver;
  CloseSigner_ : CloseSigner
}.

Definition CleanUp (e : Environment) : option protofsm.error := None.

Definition Name (e : Environment) : string :=
  ("rbf_chan_closer(" ++ OutPointString (ChanPoint e) ++ ")")%string.

(** [*Environment] as the environment of a [protofsm.StateMachine]. *)
Definition asEnvironment : protofsm.Environment Environment :=
  {| protofsm.CleanUp := CleanUp; protofsm.Name := Name |}.

End Mapper.
End chancloser.

(** ** A small machine to run the driver on *)

Module demo.
Import protofsm.

#[local] Instance externals : Externals := {|
  PublicKey := unit;
  Message := nat;
  MsgTx := nat;
  OutPoint := nat;
  Hash := nat;
  ConfirmationEvent := nat;
  SpendEvent := nat;
  SendPredicate := unit;
  ExtError := nat
|}.

Inductive Ev := Go | Step | Tick | Watch | Publish (tx : nat).
Inductive St := Idle | Working | Closed.

(** The adapter keeps the calls it received; broadcasting transaction 0 is
    refused, every other call goes through. *)
#[local] Instance adapter : DaemonAdapters (list AdapterCall) := {|
  SendMessages := fun peer msgs a =>
    (None, a ++ [CallSendMessages peer msgs]);
  BroadcastTransaction := fun tx label a =>
    (match tx with O => Some (ErrExternal 1%nat) | _ => None end,
     a ++ [CallBroadcastTransaction tx label]);
  DisableChannel := fun op a => (None, a ++ [CallDisableChannel op]);
  RegisterConfirmationsNtfn := fun txid script numConfs hint a =>
    (inl txid, a ++ [CallRegisterConfirmationsNtfn txid script numConfs hint]);
  RegisterSpendNtfn := fun op script hint a =>
    (inl op, a ++ [CallRegisterSpendNtfn op script hint])
|}.

#[local] Instance env : Environment unit := {|
  CleanUp := fun _ => None;
  Name := fun _ => "demo"%string
|}.

Definition transition (s : St) (e : Ev) (_ : unit)
    : StateTransition Ev St + error :=
  match s, e with
  | Idle, Go =>
      inl {| NextState := Working;
             NewEvents := Some
               {| InternalEvent := Some Step;
                  ExternalEvents := Some
                    [DisableChannelEvent 7%nat;
                     BroadcastTxn 1%nat "first"%string] |} |}
  | Working, Step =>
      inl {| NextState := Closed;
             NewEvents := Some
               {| InternalEvent := None;
                  ExternalEvents := Some [BroadcastTxn 2%nat "second"%string] |} |}
  | Closed, Tick => inl {| NextState := Closed; NewEvents := None |}
  | Idle, Watch =>
      inl {| NextState := Idle;
             NewEvents := Some
               {| InternalEvent := None;
                  ExternalEvents := Some
                    [RegisterConf 5%nat [] 100 None (Some Tick)] |} |}
  | Idle, Publish tx =>
      inl {| NextState := Working;
             NewEvents := Some
               {| InternalEvent := Some (Publish tx);
                  ExternalEvents := Some [DisableChannelEvent 7%nat] |} |}
  | Working, Publish tx =>
      inl {| NextState := Closed;
             NewEvents := Some
               {| InternalEvent := None;
                  ExternalEvents := Some
                    [DisableChannelEvent 8%nat;
                     BroadcastTxn tx "published"%string;
                     DisableChannelEvent 9%nat] |} |}
  | _, _ => inr (ErrExternal 0%nat)
  end.

#[local] Instance state : State Ev unit St := {|
  ProcessEvent := transition;
  IsTerminal := fun s => match s with Closed => true | _ => false end
|}.

Definition cfg : StateMachineCfg (Event := Ev) (Env := unit) (St := St) := {|
  InitialState := Idle;
  Env_ := tt;
  InitEvent := None;
  MsgMapper_ := Some (fun m => match m with O => Some Go | _ => None end)
|}.

Definition w0 : World (Event := Ev) (St := St) (A := list AdapterCall) :=
  {| daemon := []; trace := [] |}.

(** Two events in a row: the first burst ends in [Closed], the second is
    sent to the machine after that. *)
Definition twice : list (Select (Event := Ev)) := [SelEvent Go; SelEvent Tick].

Definition run (fuel : nat) (sched : list (Select (Event := Ev)))
    : DriverStatus (St := St) * World :=
  driveMachine cfg fuel sched w0.

#[local] Instance wire : chancloser.Wire := {|
  chancloser.ClosingSig := nat;
  chancloser.ClosingComplete := nat;
  chancloser.Sig := nat
|}.

(** Stand-ins for the two functions the close terms are taken over: a
    thousand millisatoshi to the satoshi, and a dust limit by script size
    (294 for the 22 bytes of a P2WPKH script). *)
Definition toSat (m : chancloser.MilliSatoshi) : chancloser.Amount :=
  m / 1000.

Definition dustLimit (size : Z) : chancloser.Amount :=
  if size =? 22 then 294 else 354.

Definition p2wpkh : list Byte.byte := repeat Byte.x00 22.

(** Local balance 294 sat, exactly the limit of its script; remote balance
    400000 sat. *)
Definition termsAtLimit : chancloser.CloseChannelTerms := {|
  chancloser.Balances :=
    {| chancloser.LocalBalance := 294000;
       chancloser.RemoteBalance := 400000000 |};
  chancloser.Scripts :=
    {| chancloser.LocalDeliveryScript := p2wpkh;
       chancloser.RemoteDeliveryScript := p2wpkh |}
|}.

(** The same machine with an [InitEvent] the adapter refuses. *)
Definition cfgRefusedInit
    : StateMachineCfg (Event := Ev) (Env := unit) (St := St) := {|
  InitialState := Idle;
  Env_ := tt;
  InitEvent := Some (BroadcastTxn 0%nat "init"%string);
  MsgMapper_ := None
|}.

(** Both sides above the dust limit: 500000 sat and 400000 sat. *)
Definition termsBoth : chancloser.CloseChannelTerms := {|
  chancloser.Balances :=
    {| chancloser.LocalBalance := 500000000;
       chancloser.RemoteBalance := 400000000 |};
  chancloser.Scripts :=
    {| chancloser.LocalDeliveryScript := p2wpkh;
       chancloser.RemoteDeliveryScript := p2wpkh |}
|}.

Definition spendAt800000 : chancloser.SpendDetail :=
  {| chancloser.SpendingTx := 9%nat; chancloser.SpendingHeight := 800000 |}.

(** The effects of [Publish 0] in [Working] up to the broadcast the adapter
    refuses. *)
Definition upToRefused : list (DaemonEvent Ev) :=
  [DisableChannelEvent 8%nat; BroadcastTxn 0%nat "published"%string].

(** Two [ClosePending] states that differ in their data. *)
Definition pendingA : chancloser.AsymmetricPeerState :=
  chancloser.AsClosePending
    {| chancloser.CloseTx := 1%nat; chancloser.FeeRate := 10 |}.

Definition pendingB : chancloser.AsymmetricPeerState :=
  chancloser.AsClosePending
    {| chancloser.CloseTx := 2%nat; chancloser.FeeRate := 20 |}.

End demo.

(** * Properties of the close states *)

Section CloseStates.
Import chancloser.
Context `{protofsm.Externals} `{Wire}.

Lemma IsTerminal_true_inv (s : ProtocolState) :
  IsTerminal s = true ->
  (exists c, s = OfClosePending c) \/ (exists c, s = OfCloseFin c).
Proof.
  destruct s; cbn; try discriminate; intros _; [left | right];
    eexists; reflexivity.
Qed.

(** C1 (as the code has it).  [ClosePending.IsTerminal] returns true: the
    states whose [IsTerminal] is true are [ClosePending] and [CloseFin], not
    [CloseFin] alone. *)
Theorem ClosePending_IsTerminal_true :
  (forall c : ClosePending, IsTerminal (OfClosePending c) = true) /\
  (forall c : CloseFin, IsTerminal (OfCloseFin c) = true) /\
  (forall s : ProtocolState,
     IsTerminal s = true <->
     (exists c, s = OfClosePending c) \/ (exists c, s = OfCloseFin c)).
Proof.
  repeat split; try reflexivity.
  - apply IsTerminal_true_inv.
  - intros [[c ->] | [c ->]]; reflexivity.
Qed.

(** C10.  Inside [ClosingNegotiation] no event is routed to both sides: a
    local sub-state ([LocalCloseStart], [LocalOfferSent]) and the remote
    sub-state ([RemoteCloseStart]) never both answer true; the local ones
    accept exactly [SendOfferEvent] and [LocalSigReceived], the remote one
    exactly [OfferReceivedEvent]. *)
Theorem ShouldRouteTo_disjoint
    (l : LocalCloseStart) (o : LocalOfferSent) (r : RemoteCloseStart)
    (event : ProtocolEvent) :
  ShouldRouteTo (AsLocalCloseStart l) event
    && ShouldRouteTo (AsRemoteCloseStart r) event = false /\
  ShouldRouteTo (AsLocalOfferSent o) event
    && ShouldRouteTo (AsRemoteCloseStart r) event = false /\
  (ShouldRouteTo (AsLocalCloseStart l) event = true <->
     exists rate, event = SendOfferEvent rate) /\
  (ShouldRouteTo (AsLocalOfferSent o) event = true <->
     exists msg, event = LocalSigReceived msg) /\
  (ShouldRouteTo (AsRemoteCloseStart r) event = true <->
     exists msg, event = OfferReceivedEvent msg).
Proof.
  destruct event; cbn; repeat split; intros; try discriminate;
    try (eexists; reflexivity);
    match goal with
    | E : exists _, _ = _ |- _ => destruct E; discriminate
    end.
Qed.

End CloseStates.

Section CloseTerms.
Import chancloser.
Variable ToSatoshis : MilliSatoshi -> Amount.
Variable DustLimitForSize : Z -> Amount.

Abbreviation deriveTxOut := (deriveTxOut DustLimitForSize).
Abbreviation DeriveCloseTxOuts := (DeriveCloseTxOuts ToSatoshis DustLimitForSize).
Abbreviation LocalAmtIsDust := (LocalAmtIsDust ToSatoshis DustLimitForSize).
Abbreviation RemoteAmtIsDust := (RemoteAmtIsDust ToSatoshis DustLimitForSize).

Lemma deriveTxOut_Some (balance : Amount) (pkScript : list Byte.byte) :
  deriveTxOut balance pkScript <> None <->
  DustLimitForSize (len pkScript) < balance.
Proof.
  unfold chancloser.deriveTxOut.
  destruct (Z.gtb_spec balance (DustLimitForSize (len pkScript))); split;
    intros; try lia; try congruence.
Qed.

(** A dust output is left out of the close transaction. *)
Lemma dust_output_is_nil (c : CloseChannelTerms) :
  (LocalAmtIsDust c = true -> fst (DeriveCloseTxOuts c) = None) /\
  (RemoteAmtIsDust c = true -> snd (DeriveCloseTxOuts c) = None).
Proof.
  unfold chancloser.LocalAmtIsDust, chancloser.RemoteAmtIsDust,
    chancloser.DeriveCloseTxOuts, chancloser.deriveTxOut; cbn.
  split; intros D; apply Z.ltb_lt in D.
  - destruct (Z.gtb_spec (ToSatoshis (LocalBalance (Balances c)))
      (DustLimitForSize (len (LocalDeliveryScript (Scripts c)))));
      [lia | reflexivity].
  - destruct (Z.gtb_spec (ToSatoshis (RemoteBalance (Balances c)))
      (DustLimitForSize (len (RemoteDeliveryScript (Scripts c)))));
      [lia | reflexivity].
Qed.

(** The remote side at its dust limit: not dust, and no output. *)
Lemma remote_balance_at_dust_limit (c : CloseChannelTerms) :
  ToSatoshis (RemoteBalance (Balances c))
    = DustLimitForSize (len (RemoteDeliveryScript (Scripts c))) ->
  RemoteAmtIsDust c = false /\ snd (DeriveCloseTxOuts c) = None.
Proof.
  unfold chancloser.RemoteAmtIsDust, chancloser.DeriveCloseTxOuts,
    chancloser.deriveTxOut; cbn.
  intros ->; rewrite Z.ltb_irrefl; split; [reflexivity |].
  destruct (Z.gtb_spec
    (DustLimitForSize (len (RemoteDeliveryScript (Scripts c))))
    (DustLimitForSize (len (RemoteDeliveryScript (Scripts c)))));
    [lia | reflexivity].
Qed.

(** C4 (as the code has it).  A side whose settled balance equals the dust
    limit of its script is not dust for [LocalAmtIsDust] (it tests [<]), and
    yet [DeriveCloseTxOuts] leaves its output out (it tests [>]): at the
    limit, "not dust" and "output present" disagree. *)
Theorem local_balance_at_dust_limit (c : CloseChannelTerms) :
  ToSatoshis (LocalBalance (Balances c))
    = DustLimitForSize (len (LocalDeliveryScript (Scripts c))) ->
  LocalAmtIsDust c = false /\ fst (DeriveCloseTxOuts c) = None.
Proof.
  unfold chancloser.LocalAmtIsDust, chancloser.DeriveCloseTxOuts,
    chancloser.deriveTxOut; cbn.
  intros ->; rewrite Z.ltb_irrefl; split; [reflexivity |].
  destruct (Z.gtb_spec
    (DustLimitForSize (len (LocalDeliveryScript (Scripts c))))
    (DustLimitForSize (len (LocalDeliveryScript (Scripts c)))));
    [lia | reflexivity].
Qed.

(** C9.  [LocalCanPayFees] is true exactly when the local balance in
    satoshis is at least the absolute fee, and [RemoteCanPayFees] likewise
    for the remote balance. *)
Theorem CanPayFees_iff (c : CloseChannelTerms) (absoluteFee : Amount) :
  (LocalCanPayFees ToSatoshis c absoluteFee = true <->
     absoluteFee <= ToSatoshis (LocalBalance (Balances c))) /\
  (RemoteCanPayFees ToSatoshis c absoluteFee = true <->
     absoluteFee <= ToSatoshis (RemoteBalance (Balances c))).
Proof.
  unfold LocalCanPayFees, RemoteCanPayFees.
  split; rewrite Z.geb_le; reflexivity.
Qed.

End CloseTerms.

Lemma local_balance_at_dust_limit_witness :
  chancloser.LocalAmtIsDust demo.toSat demo.dustLimit demo.termsAtLimit = false /\
  fst (chancloser.DeriveCloseTxOuts demo.toSat demo.dustLimit demo.termsAtLimit)
    = None.
Proof.
  apply (local_balance_at_dust_limit demo.toSat demo.dustLimit
           demo.termsAtLimit).
  reflexivity.
Defined.

(** * Properties of the driver *)

Section Driver.
Import protofsm.
Context `{Externals}.
Context {Event Env St A : Type}.
Context {EnvI : Environment Env}.
Context {StateI : State Event Env St}.
Context {Daemon : DaemonAdapters A}.
Variable cfg : StateMachineCfg (Event := Event) (Env := Env) (St := St).

Implicit Types (w : World (Event := Event) (St := St) (A := A)).
Implicit Types (tr : list (Obs (Event := Event) (St := St))).

Ltac break_match :=
  repeat match goal with
         | |- context [match ?x with _ => _ end] =>
             lazymatch x with
             | context [match _ with _ => _ end] => fail
             | _ => destruct x eqn:?
             end
         end.

Ltac close_delta :=
  cbn [snd fst trace record setDaemon daemon];
  rewrite <- ?app_assoc; cbn [app];
  eexists; split; [reflexivity | reflexivity].

Lemma executeDaemonEvent_trace (d : DaemonEvent Event) w :
  exists tr,
    trace (snd (executeDaemonEvent d w)) = trace w ++ ObsExec d :: tr /\
    driverView tr = [].
Proof.
  unfold executeDaemonEvent, daemonSwitch, sendAndCleanUp.
  destruct d; cbn [negb fn.IsSome]; break_match;
    repeat match goal with
           | E : (_, _) = (_, _) |- _ => inversion E; subst; clear E
           end;
    close_delta.
Qed.

Lemma driverView_app tr1 tr2 :
  driverView (tr1 ++ tr2) = driverView tr1 ++ driverView tr2.
Proof. apply filter_app. Qed.

Lemma driverView_cons (o : Obs) tr :
  driverView (o :: tr) =
  if isDriverStep o then o :: driverView tr else driverView tr.
Proof. reflexivity. Qed.

Lemma driverView_nil : driverView ([] : list (Obs (Event := Event) (St := St))) = [].
Proof. reflexivity. Qed.

Ltac dview :=
  repeat (rewrite ?driverView_app, ?driverView_cons, ?driverView_nil;
          cbn [isDriverStep app map]).

Lemma driverView_Exec (ds : list (DaemonEvent Event)) :
  driverView (map ObsExec ds) = map (ObsExec (St := St)) ds.
Proof.
  induction ds as [|d ds IH]; [reflexivity|].
  cbn [map]; rewrite driverView_cons, IH; reflexivity.
Qed.

(** The effects of a set run in the order of the set; at the first error the
    rest is skipped. *)
Lemma execDaemonEvents_trace (ds : DaemonEventSet Event) w :
  exists tr,
    trace (snd (execDaemonEvents ds w)) = trace w ++ tr /\
    match fst (execDaemonEvents ds w) with
    | None => driverView tr = map ObsExec ds
    | Some _ =>
        exists before d after,
          ds = before ++ d :: after /\
          driverView tr = map ObsExec (before ++ [d])
    end.
Proof.
  revert w; induction ds as [|d ds IH]; intros w; cbn [execDaemonEvents].
  - exists []; cbn [fst snd]; rewrite app_nil_r; auto.
  - destruct (executeDaemonEvent_trace d w) as (tr1 & E1 & V1).
    destruct (executeDaemonEvent d w) as [[err|] w1]; cbn [fst snd] in *.
    + exists (ObsExec d :: tr1); split; [assumption|].
      exists [], d, ds; dview; rewrite V1; auto.
    + destruct (IH w1) as (tr2 & E2 & V2).
      exists ((ObsExec d :: tr1) ++ tr2); split.
      * rewrite E2, E1, <- app_assoc; reflexivity.
      * dview; rewrite V1; cbn [app].
        destruct (fst (execDaemonEvents ds w1)).
        -- destruct V2 as (before & d' & after & -> & V2).
           exists (d :: before), d', after; rewrite V2; auto.
        -- rewrite V2; reflexivity.
Qed.

(** One transition: what it adds to the trace, and what it leaves in the
    loop variables. *)
Lemma applyOne_spec (e : Event) (cur : St) (q : list Event) w :
  let r :=
    applyOne cfg e {| currentState := cur; eventQueue := q; world := w |} in
  exists tr,
    trace (world (snd r)) = trace w ++ tr /\
    match ProcessEvent cur e (Env_ cfg) with
    | inr err =>
        fst r = Some err /\ driverView tr = [ObsProcess cur e] /\
        currentState (snd r) = cur
    | inl t =>
        match fst r with
        | Some _ =>
            (exists before d after,
               externalsOf t = before ++ d :: after /\
               driverView tr = ObsProcess cur e :: map ObsExec (before ++ [d])) /\
            currentState (snd r) = cur
        | None =>
            driverView tr =
              ObsProcess cur e
                :: map ObsExec (externalsOf t)
                ++ map ObsEnqueue (internalOf t)
                ++ [ObsNotify (NextState t)] /\
            currentState (snd r) = NextState t /\
            eventQueue (snd r) = q ++ internalOf t
        end
    end.
Proof.
  unfold applyOne, externalsOf, internalOf; cbn [currentState eventQueue world].
  destruct (ProcessEvent cur e (Env_ cfg)) as [t|err].
  2:{ cbn [fst snd world currentState record trace].
      exists [ObsProcess cur e]; auto. }
  destruct (NewEvents t) as [events|]; cbn [fn.MapOptionZ].
  2:{ cbn [fst snd world currentState eventQueue record trace map app].
      exists [ObsProcess cur e; ObsNotify (NextState t)].
      rewrite <- app_assoc, app_nil_r; auto. }
  unfold emitEvents.
  destruct (ExternalEvents events) as [ds|]; cbn [fn.MapOptionZ fn.UnwrapOr].
  - destruct (execDaemonEvents_trace ds (record (ObsProcess cur e) w))
      as (tr1 & E1 & V1).
    destruct (execDaemonEvents ds (record (ObsProcess cur e) w))
      as [[err|] w1]; cbn [fst snd] in *.
    + exists (ObsProcess cur e :: tr1); split.
      * cbn [world]; rewrite E1; cbn [record trace];
          rewrite <- app_assoc; reflexivity.
      * split; [|reflexivity].
        destruct V1 as (before & d & after & -> & V1).
        exists before, d, after; dview; rewrite V1; auto.
    + destruct (InternalEvent events) as [ie|];
        cbn [fst snd world record trace currentState eventQueue fn.Enqueue].
      * exists (ObsProcess cur e
                  :: tr1 ++ [ObsEnqueue ie; ObsNotify (NextState t)]).
        split.
        -- rewrite E1; cbn [record trace]; rewrite <- !app_assoc; reflexivity.
        -- dview; rewrite V1; auto.
      * exists (ObsProcess cur e :: tr1 ++ [ObsNotify (NextState t)]).
        split.
        -- rewrite E1; cbn [record trace]; rewrite <- !app_assoc; reflexivity.
        -- dview; rewrite V1, app_nil_r; auto.
  - destruct (InternalEvent events) as [ie|];
      cbn [fst snd world record trace currentState eventQueue fn.Enqueue map app].
    + exists [ObsProcess cur e; ObsEnqueue ie; ObsNotify (NextState t)].
      rewrite <- !app_assoc; auto.
    + exists [ObsProcess cur e; ObsNotify (NextState t)].
      rewrite <- !app_assoc, app_nil_r; auto.
Qed.

(** The loop of [applyEvents] follows the specified ordering, whatever the
    fuel. *)
Lemma applyLoop_Burst (fuel : nat) (ls : LoopState) :
  exists tr,
    trace (snd (applyLoop cfg fuel ls)) = trace (world ls) ++ tr /\
    Burst cfg (currentState ls) (eventQueue ls) (driverView tr)
      (fst (applyLoop cfg fuel ls)).
Proof.
  revert ls; induction fuel as [|fuel IH]; intros [cur q w];
    cbn [applyLoop currentState eventQueue world].
  - destruct q as [|e q]; cbn; exists []; rewrite app_nil_r;
      split; auto; constructor.
  - destruct q as [|e q]; cbn [fn.Dequeue].
    { exists []; cbn; rewrite app_nil_r; split; auto; constructor. }
    pose proof (applyOne_spec e cur q w) as S; cbn zeta in S.
    destruct S as (tr1 & E1 & S).
    destruct (applyOne cfg e
                {| currentState := cur; eventQueue := q; world := w |})
      as [[err|] ls1]; cbn [fst snd] in *.
    + exists tr1; split; [assumption|].
      destruct (ProcessEvent cur e (Env_ cfg)) as [t|err'] eqn:P.
      * destruct S as ((before & d & after & X & V) & ->).
        rewrite V; eapply Burst_effect_error; eassumption.
      * destruct S as (Eerr & V & ->); inversion Eerr; subst.
        rewrite V; apply Burst_transition_error; assumption.
    + destruct (ProcessEvent cur e (Env_ cfg)) as [t|err'] eqn:P.
      2:{ destruct S as (Eerr & _); discriminate. }
      destruct S as (V & C & Q).
      destruct (IH ls1) as (tr2 & E2 & B2).
      exists (tr1 ++ tr2); split.
      * rewrite E2, E1, app_assoc; reflexivity.
      * rewrite driverView_app, V, C, Q in *.
        cbn [app]; rewrite <- !app_assoc; cbn [app].
        apply Burst_commit; assumption.
Qed.

(** *** What the ordering gives *)

Lemma last_cons_default (T : Type) (a d : T) (l : list T) :
  last (a :: l) d = last l a.
Proof.
  revert a d; induction l as [|b l IH]; intros a d; [reflexivity|].
  change (last (a :: b :: l) d) with (last (b :: l) d).
  rewrite (IH b d), (IH b a); reflexivity.
Qed.

Lemma notified_app tr1 tr2 :
  notified (tr1 ++ tr2) = notified tr1 ++ notified tr2.
Proof.
  induction tr1 as [|o tr1 IH]; [reflexivity|].
  destruct o; cbn; rewrite ?IH; reflexivity.
Qed.

Lemma processed_app tr1 tr2 :
  processed (tr1 ++ tr2) = processed tr1 ++ processed tr2.
Proof.
  induction tr1 as [|o tr1 IH]; [reflexivity|].
  destruct o; cbn; rewrite ?IH; reflexivity.
Qed.

Lemma enqueued_app tr1 tr2 :
  enqueued (tr1 ++ tr2) = enqueued tr1 ++ enqueued tr2.
Proof.
  induction tr1 as [|o tr1 IH]; [reflexivity|].
  destruct o; cbn; rewrite ?IH; reflexivity.
Qed.

Lemma notified_driverView tr : notified (driverView tr) = notified tr.
Proof.
  induction tr as [|o tr IH]; [reflexivity|].
  rewrite driverView_cons; destruct o; cbn; rewrite ?IH; reflexivity.
Qed.

Lemma processed_driverView tr : processed (driverView tr) = processed tr.
Proof.
  induction tr as [|o tr IH]; [reflexivity|].
  rewrite driverView_cons; destruct o; cbn; rewrite ?IH; reflexivity.
Qed.

Lemma enqueued_driverView tr : enqueued (driverView tr) = enqueued tr.
Proof.
  induction tr as [|o tr IH]; [reflexivity|].
  rewrite driverView_cons; destruct o; cbn; rewrite ?IH; reflexivity.
Qed.

Lemma scan_Exec (ds : list (DaemonEvent Event)) :
  notified (map (ObsExec (St := St)) ds) = [] /\
  processed (map (ObsExec (St := St)) ds) = [] /\
  enqueued (map (ObsExec (St := St)) ds) = [].
Proof. induction ds; cbn; auto. Qed.

Lemma scan_Enqueue (es : list Event) :
  notified (map (ObsEnqueue (St := St)) es) = [] /\
  processed (map (ObsEnqueue (St := St)) es) = [] /\
  enqueued (map (ObsEnqueue (St := St)) es) = es.
Proof.
  induction es as [|e es (N & P & Q)]; cbn; auto.
  rewrite Q; auto.
Qed.

(** The state a burst ends with is the state of its last commit. *)
Lemma Burst_lastCommitted cur q v res :
  Burst cfg cur q v res ->
  match res with Finished st _ | OutOfFuel st _ => st end
    = lastCommitted cur v.
Proof.
  unfold lastCommitted.
  induction 1 as [cur|cur e q|cur e q err P|cur e q t before d after err P X
                  |cur e q t tr res P B IH]; try reflexivity.
  - cbn [notified]; rewrite (proj1 (scan_Exec (before ++ [d]))); reflexivity.
  - rewrite IH; cbn [notified].
    rewrite !notified_app, (proj1 (scan_Exec _)), (proj1 (scan_Enqueue _)).
    cbn [app notified]; rewrite last_cons_default; reflexivity.
Qed.

(** First in, first out: the events processed are the queue followed by the
    events enqueued, in that order, up to what is still pending. *)
Lemma Burst_fifo cur q v res :
  Burst cfg cur q v res ->
  exists pending,
    q ++ enqueued v = processed v ++ pending /\
    match res with
    | Finished _ None => pending = []
    | Finished _ (Some _) => True
    | OutOfFuel _ waiting => pending = waiting
    end.
Proof.
  induction 1 as [cur|cur e q|cur e q err P|cur e q t before d after err P X
                  |cur e q t tr res P B IH].
  - exists []; auto.
  - exists (e :: q); cbn; rewrite app_nil_r; auto.
  - exists q; cbn; rewrite app_nil_r; auto.
  - exists q; cbn [processed enqueued].
    destruct (scan_Exec (before ++ [d])) as (_ & -> & ->).
    rewrite app_nil_r; auto.
  - destruct IH as (pending & F & R); exists pending; split; [|exact R].
    cbn [processed enqueued].
    rewrite !processed_app, !enqueued_app.
    destruct (scan_Exec (externalsOf t)) as (_ & -> & ->).
    destruct (scan_Enqueue (internalOf t)) as (_ & -> & ->).
    cbn [app processed enqueued].
    rewrite <- F, <- app_assoc; reflexivity.
Qed.

(** The driver's steps of the loop follow [Burst], and the events are
    processed first in, first out. *)
Lemma applyLoop_Burst_fifo
    (fuel : nat) (ls : LoopState) :
  exists tr,
    trace (snd (applyLoop cfg fuel ls)) = trace (world ls) ++ tr /\
    Burst cfg (currentState ls) (eventQueue ls) (driverView tr)
      (fst (applyLoop cfg fuel ls)) /\
    exists pending,
      eventQueue ls ++ enqueued tr = processed tr ++ pending /\
      match fst (applyLoop cfg fuel ls) with
      | Finished _ None => pending = []
      | Finished _ (Some _) => True
      | OutOfFuel _ waiting => pending = waiting
      end.
Proof.
  destruct (applyLoop_Burst fuel ls) as (tr & E & B).
  exists tr; repeat split; try assumption.
  destruct (Burst_fifo B) as (pending & F & R).
  rewrite processed_driverView, enqueued_driverView in F.
  exists pending; auto.
Qed.

(** *** Errors inside a burst *)

Lemma execDaemonEvents_fails_at
    (done : list (DaemonEvent Event)) (d : DaemonEvent Event)
    (after : list (DaemonEvent Event)) w wd w' (err : error) :
  execDaemonEvents done w = (None, wd) ->
  executeDaemonEvent d wd = (Some err, w') ->
  execDaemonEvents (done ++ d :: after) w = (Some err, w').
Proof.
  revert w; induction done as [|x done IH]; intros w D X; cbn in *.
  - inversion D; subst; rewrite X; reflexivity.
  - destruct (executeDaemonEvent x w) as [[e1|] w1]; [discriminate|].
    apply IH; assumption.
Qed.

Lemma TransitionFails_applyOne (cur : St) (e : Event) (q : list Event)
    w w' (err : error) :
  TransitionFails cfg cur e w err w' ->
  applyOne cfg e {| currentState := cur; eventQueue := q; world := w |}
  = (Some err, {| currentState := cur; eventQueue := q; world := w' |}).
Proof.
  unfold applyOne; cbn [currentState eventQueue world].
  intros [(P & ->) | (t & done & d & after & wd & P & X & D & F)];
    rewrite P; [reflexivity|].
  unfold externalsOf in X.
  destruct (NewEvents t) as [events|];
    [|destruct done; discriminate].
  cbn [fn.MapOptionZ]; unfold emitEvents.
  destruct (ExternalEvents events) as [ds|]; cbn [fn.UnwrapOr] in X;
    [|destruct done; discriminate].
  subst ds; cbn [fn.MapOptionZ].
  erewrite execDaemonEvents_fails_at by eassumption; reflexivity.
Qed.

Lemma applyLoop_reaches (n : nat) (ls ls' : LoopState) :
  BurstReaches cfg n ls ls' ->
  forall m, applyLoop cfg (n + m) ls = applyLoop cfg m ls'.
Proof.
  induction 1 as [ls|n cur e q w ls1 ls2 S1 R IH]; intros m; [reflexivity|].
  cbn [Nat.add applyLoop eventQueue fn.Dequeue currentState world].
  rewrite S1; apply IH.
Qed.

(** C6.  Anywhere in a burst (after [n] transitions that went through), when
    the transition function of the current state returns an error, or when
    one of the effects it emitted does, [applyEvents] returns at once with
    that error and with the state of the last commit (the rest of the queue
    is dropped); the driver hands the error to the [ErrorReporter], launches
    [Stop] and returns, whatever else is scheduled. *)
Theorem transition_error_aborts_reports_stops
    (n fuel : nat) (cur0 cur : St) (e0 e : Event) (q : list Event)
    w0 w w' (err : error) (rest : list Select) :
  BurstReaches cfg n
    {| currentState := cur0; eventQueue := fn.NewQueue e0; world := w0 |}
    {| currentState := cur; eventQueue := e :: q; world := w |} ->
  TransitionFails cfg cur e w err w' ->
  (n < fuel)%nat ->
  applyEvents cfg fuel cur0 e0 w0 = (Finished cur (Some err), w') /\
  (exists tr, trace w' = trace w0 ++ tr /\ cur = lastCommitted cur0 tr) /\
  driveLoop cfg fuel cur0 (SelEvent e0 :: rest) w0
  = (Returned, record (ObsSpawn TaskStop) (record (ObsReport err) w')).
Proof.
  intros R F L.
  assert (E : applyEvents cfg fuel cur0 e0 w0 = (Finished cur (Some err), w')).
  { unfold applyEvents.
    replace fuel with (n + S (fuel - S n))%nat by lia.
    rewrite (applyLoop_reaches R).
    cbn [applyLoop eventQueue fn.Dequeue currentState world].
    rewrite (TransitionFails_applyOne q F); reflexivity. }
  split; [exact E|]; split.
  - destruct (applyLoop_Burst fuel
      {| currentState := cur0; eventQueue := fn.NewQueue e0; world := w0 |})
      as (tr & T & B).
    unfold applyEvents in E; rewrite E in T, B; cbn [fst snd world] in T, B.
    exists tr; split; [exact T|].
    apply Burst_lastCommitted in B; cbn [currentState] in B.
    unfold lastCommitted in *; rewrite notified_driverView in B; exact B.
  - cbn [driveLoop]; rewrite E; reflexivity.
Qed.

(** *** Terminal states *)

(** After a burst that ends in a terminal state the driver calls [CleanUp]
    and goes on with the rest of the schedule. *)
Lemma driveLoop_terminal_continues (fuel : nat) (cur st : St) (e : Event)
    w w1 (rest : list Select) :
  applyEvents cfg fuel cur e w = (Finished st None, w1) ->
  IsTerminal st = true ->
  driveLoop cfg fuel cur (SelEvent e :: rest) w
  = driveLoop cfg fuel st rest (record (ObsCleanUp (CleanUp (Env_ cfg))) w1).
Proof. intros E T; cbn [driveLoop]; rewrite E, T; reflexivity. Qed.

Lemma cleanups_app tr1 tr2 :
  cleanups (tr1 ++ tr2) = (cleanups tr1 + cleanups tr2)%nat.
Proof. unfold cleanups; rewrite filter_app, length_app; reflexivity. Qed.

Lemma cleanups_driverView tr : cleanups (driverView tr) = cleanups tr.
Proof.
  unfold cleanups; induction tr as [|o tr IH]; [reflexivity|].
  rewrite driverView_cons; destruct o; cbn; rewrite ?IH; reflexivity.
Qed.

Lemma cleanups_steps (ds : list (DaemonEvent Event)) (es : list Event) tr :
  cleanups (map ObsExec ds ++ map ObsEnqueue es ++ tr) = cleanups tr.
Proof.
  induction ds as [|d ds IH]; [|exact IH].
  induction es as [|e es IH]; [reflexivity | exact IH].
Qed.

(** A burst never calls [CleanUp]. *)
Lemma Burst_cleanups cur q v res : Burst cfg cur q v res -> cleanups v = O.
Proof.
  induction 1 as [cur|cur e q|cur e q err P|cur e q t before d after err P X
                  |cur e q t tr res P B IH]; try reflexivity.
  - change (cleanups (map (ObsExec (St := St)) (before ++ [d])) = O).
    rewrite <- (app_nil_r (map _ _)).
    apply (cleanups_steps (before ++ [d]) [] []).
  - change (cleanups (map (ObsExec (St := St)) (externalsOf t)
                        ++ map ObsEnqueue (internalOf t)
                        ++ ObsNotify (NextState t) :: tr) = O).
    rewrite cleanups_steps; exact IH.
Qed.

Lemma applyEvents_cleanups (fuel : nat) (cur : St) (e : Event) w :
  cleanups (trace (snd (applyEvents cfg fuel cur e w))) = cleanups (trace w).
Proof.
  unfold applyEvents.
  destruct (applyLoop_Burst fuel
    {| currentState := cur; eventQueue := fn.NewQueue e; world := w |})
    as (tr & T & B).
  rewrite T, cleanups_app, <- (cleanups_driverView tr), (Burst_cleanups B).
  cbn [world]; lia.
Qed.

(** C3 (as the code has it).  A burst that ends in a terminal state is
    followed by one [CleanUp], and the driver stays in its loop: when the
    next event again ends in a terminal state, [CleanUp] runs a second time
    and the driver is still waiting for events. *)
Theorem driver_runs_on_after_terminal
    (fuel : nat) (cur st1 st2 : St) (e1 e2 : Event) w w1 w2 :
  applyEvents cfg fuel cur e1 w = (Finished st1 None, w1) ->
  IsTerminal st1 = true ->
  applyEvents cfg fuel st1 e2 (record (ObsCleanUp (CleanUp (Env_ cfg))) w1)
  = (Finished st2 None, w2) ->
  IsTerminal st2 = true ->
  driveLoop cfg fuel cur [SelEvent e1; SelEvent e2] w
  = (Waiting st2, record (ObsCleanUp (CleanUp (Env_ cfg))) w2) /\
  cleanups (trace (record (ObsCleanUp (CleanUp (Env_ cfg))) w2))
  = (cleanups (trace w) + 2)%nat.
Proof.
  intros E1 T1 E2 T2; split.
  - rewrite (@driveLoop_terminal_continues fuel cur st1 e1 w w1 _ E1 T1).
    rewrite (@driveLoop_terminal_continues fuel st1 st2 e2 _ w2 _ E2 T2).
    reflexivity.
  - pose proof (applyEvents_cleanups fuel cur e1 w) as C1.
    pose proof (applyEvents_cleanups fuel st1 e2
                  (record (ObsCleanUp (CleanUp (Env_ cfg))) w1)) as C2.
    rewrite E1 in C1; rewrite E2 in C2; cbn [snd] in C1, C2.
    cbn [record trace] in *; rewrite cleanups_app in *.
    cbn in *; lia.
Qed.

(** *** executeDaemonEvent on RegisterConf *)

Lemma executeDaemonEvent_RegisterConf
    (txid : Hash) (script : list Byte.byte) (hint : Z) (numConfs : option Z)
    (post : option Event) w (confEvent : ConfirmationEvent) (a' : A) :
  RegisterConfirmationsNtfn txid script (fn.UnwrapOr numConfs 1) hint
    (daemon w) = (inl confEvent, a') ->
  executeDaemonEvent (RegisterConf txid script hint numConfs post) w
  = (Some (ErrUnknownDaemonEvent KRegisterConf),
     {| daemon := a';
        trace :=
          trace w ++
          [ObsExec (RegisterConf txid script hint numConfs post);
           ObsCall
             (CallRegisterConfirmationsNtfn txid script
                (fn.UnwrapOr numConfs 1) hint);
           ObsSpawn (TaskAwaitConf confEvent post)] |}).
Proof.
  intros R; unfold executeDaemonEvent, daemonSwitch.
  cbn [record daemon trace]; rewrite R.
  unfold record, setDaemon; cbn [daemon trace kindOf].
  rewrite <- !app_assoc; reflexivity.
Qed.

(** The sibling case, [RegisterSpend], returns nil when the registration
    goes through. *)
Lemma executeDaemonEvent_RegisterSpend
    (op : OutPoint) (script : list Byte.byte) (hint : Z)
    (post : option Event) w (spendEvent : SpendEvent) (a' : A) :
  RegisterSpendNtfn op script hint (daemon w) = (inl spendEvent, a') ->
  fst (executeDaemonEvent (RegisterSpend op script hint post) w) = None.
Proof.
  intros R; unfold executeDaemonEvent, daemonSwitch.
  cbn [record daemon trace]; rewrite R; reflexivity.
Qed.

(** A machine configured with a [RegisterConf] as its [InitEvent] never
    starts: the driver takes the error for a failure and returns before it
    publishes the initial state. *)
Lemma driveMachine_InitEvent_RegisterConf
    (fuel : nat) (sched : list Select) w
    (txid : Hash) (script : list Byte.byte) (hint : Z) (numConfs : option Z)
    (post : option Event) (confEvent : ConfirmationEvent) (a' : A) :
  InitEvent cfg = Some (RegisterConf txid script hint numConfs post) ->
  RegisterConfirmationsNtfn txid script (fn.UnwrapOr numConfs 1) hint
    (daemon w) = (inl confEvent, a') ->
  fst (driveMachine cfg fuel sched w) = Returned /\
  notified (trace (snd (driveMachine cfg fuel sched w))) = notified (trace w).
Proof.
  intros I R; unfold driveMachine; rewrite I; cbn [fn.MapOptionZ].
  rewrite (executeDaemonEvent_RegisterConf _ _ _ _ _ _ R); cbn [fst snd trace].
  split; [reflexivity|].
  rewrite notified_app, app_nil_r; reflexivity.
Qed.

(** C2 (as the code has it).  For a [RegisterConf] whose registration goes
    through, [executeDaemonEvent] does register with the adapter, with
    [numConfs] set to 1 when none is given, and launches the waiter; and
    then it returns the "unknown daemon event" error, because the case has
    no [return]. *)
Theorem RegisterConf_registers_then_unknown_event
    (txid : Hash) (script : list Byte.byte) (hint : Z) (numConfs : option Z)
    (post : option Event) w (confEvent : ConfirmationEvent) (a' : A) :
  RegisterConfirmationsNtfn txid script (fn.UnwrapOr numConfs 1) hint
    (daemon w) = (inl confEvent, a') ->
  executeDaemonEvent (RegisterConf txid script hint numConfs post) w
  = (Some (ErrUnknownDaemonEvent KRegisterConf),
     {| daemon := a';
        trace :=
          trace w ++
          [ObsExec (RegisterConf txid script hint numConfs post);
           ObsCall
             (CallRegisterConfirmationsNtfn txid script
                (fn.UnwrapOr numConfs 1) hint);
           ObsSpawn (TaskAwaitConf confEvent post)] |}).
Proof. apply executeDaemonEvent_RegisterConf. Qed.

(** *** The message mapper *)

(** C7.  [CanHandle] and [SendMessage] agree on every message: both are true
    exactly when the configured mapper yields an event, whichever branch the
    [select] of [SendEvent] takes; without a mapper both are false. *)
Theorem CanHandle_iff_SendMessage
    (p : fn.Pick) (msg : Message) (events : list Event) :
  (CanHandle cfg msg = true <-> fst (SendMessage cfg p msg events) = true) /\
  (forall (init : St) (env : Env) (ie : option (DaemonEvent Event)),
     let c := {| InitialState := init; Env_ := env; InitEvent := ie;
                 MsgMapper_ := None |} in
     CanHandle c msg = false /\ fst (SendMessage c p msg events) = false).
Proof.
  split; [|intros; split; reflexivity].
  unfold CanHandle, SendMessage.
  destruct (MsgMapper_ cfg) as [mapper|]; cbn; [|tauto].
  destruct (mapper msg); cbn; tauto.
Qed.

(** *** State queries *)








End Driver.

(** * The driver on the small machine *)

Section Demo.
Import protofsm.
#[local] Existing Instance demo.externals.
#[local] Existing Instance demo.adapter.
#[local] Existing Instance demo.env.
#[local] Existing Instance demo.state.
#[local] Existing Instance demo.wire.

Let World := World (H := demo.externals) (Event := demo.Ev) (St := demo.St)
               (A := list (AdapterCall (H := demo.externals))).

(** The burst of [Go]: two transitions, the effects of each before its
    internal event and its commit. *)
Example demo_Go_burst :
  driverView (trace (snd (applyEvents demo.cfg 5 demo.Idle demo.Go demo.w0)))
  = [ObsProcess demo.Idle demo.Go;
     ObsExec (DisableChannelEvent 7%nat);
     ObsExec (BroadcastTxn 1%nat "first"%string);
     ObsEnqueue demo.Step;
     ObsNotify demo.Working;
     ObsProcess demo.Working demo.Step;
     ObsExec (BroadcastTxn 2%nat "second"%string);
     ObsNotify demo.Closed] /\
  daemon (snd (applyEvents demo.cfg 5 demo.Idle demo.Go demo.w0))
  = [CallDisableChannel 7%nat;
     CallBroadcastTransaction 1%nat "first"%string;
     CallBroadcastTransaction 2%nat "second"%string].
Proof. split; reflexivity. Qed.

(** With one unit of fuel the same burst is cut after its first
    transition, the internal event still waiting. *)
Example demo_Go_out_of_fuel :
  fst (applyEvents demo.cfg 1 demo.Idle demo.Go demo.w0)
  = OutOfFuel demo.Working [demo.Step].
Proof. reflexivity. Qed.

Example demo_messages :
  CanHandle demo.cfg 0%nat = true /\
  CanHandle demo.cfg 1%nat = false /\
  SendMessage demo.cfg fn.PickSend 0%nat [] = (true, [demo.Go]) /\
  SendMessage demo.cfg fn.PickQuit 0%nat [] = (true, []) /\
  SendMessage demo.cfg fn.PickSend 1%nat [] = (false, []).
Proof. repeat split; reflexivity. Qed.

(** A query between two events is answered with [Closed], the state the
    first burst committed last. *)
Example demo_query :
  trace (snd (demo.run 5 [SelEvent demo.Go; SelStateQuery fn.PickSend]))
  = trace (snd (demo.run 5 [SelEvent demo.Go])) ++ [ObsReply demo.Closed].
Proof. reflexivity. Qed.

Example demo_close_states :
  chancloser.IsTerminal
    (chancloser.OfClosePending
       {| chancloser.CloseTx := 1%nat; chancloser.FeeRate := 10 |}) = true /\
  chancloser.IsTerminal
    (chancloser.OfCloseFin {| chancloser.ConfirmedTx := 1%nat |}) = true /\
  chancloser.IsTerminal
    (chancloser.OfShutdownPending
       {| chancloser.sp_Scripts := chancloser.Scripts demo.termsAtLimit;
          chancloser.sp_IdealFeeRate := None |}) = false /\
  chancloser.ShouldRouteTo
    (chancloser.AsRemoteCloseStart
       {| chancloser.peerPub := tt;
          chancloser.rcs_Terms := demo.termsAtLimit |})
    (chancloser.OfferReceivedEvent 3%nat) = true /\
  chancloser.ShouldRouteTo
    (chancloser.AsRemoteCloseStart
       {| chancloser.peerPub := tt;
          chancloser.rcs_Terms := demo.termsAtLimit |})
    (chancloser.SendOfferEvent 10) = false.
Proof. repeat split; reflexivity. Qed.

Example demo_close_outputs :
  chancloser.DeriveCloseTxOuts demo.toSat demo.dustLimit demo.termsAtLimit
  = (None,
     Some {| chancloser.PkScript := demo.p2wpkh;
             chancloser.Value := 400000 |}) /\
  chancloser.LocalAmtIsDust demo.toSat demo.dustLimit demo.termsAtLimit
  = false /\
  chancloser.RemoteAmtIsDust demo.toSat demo.dustLimit demo.termsAtLimit
  = false /\
  chancloser.LocalCanPayFees demo.toSat demo.termsAtLimit 294 = true /\
  chancloser.LocalCanPayFees demo.toSat demo.termsAtLimit 295 = false.
Proof. repeat split; reflexivity. Qed.

(** The whole run of [demo.twice]: three commits in two bursts, [Closed]
    reached in the first, and the driver still in its loop at the end. *)
Example demo_twice_run :
  fst (demo.run 5 demo.twice) = Waiting demo.Closed /\
  notified (trace (snd (demo.run 5 demo.twice)))
  = [demo.Idle; demo.Working; demo.Closed; demo.Closed] /\
  cleanups (trace (snd (demo.run 5 demo.twice))) = 2%nat.
Proof. repeat split; reflexivity. Qed.

Lemma driver_runs_on_after_terminal_witness :
  exists w2 : World,
    driveLoop (EnvI := demo.env) (StateI := demo.state)
      (Daemon := demo.adapter) demo.cfg 5 demo.Idle demo.twice demo.w0
    = (Waiting demo.Closed, record (ObsCleanUp None) w2) /\
    cleanups (trace (record (ObsCleanUp None) w2))
    = (cleanups (trace demo.w0) + 2)%nat.
Proof.
  eexists.
  eapply (driver_runs_on_after_terminal (EnvI := demo.env)
            (StateI := demo.state) (Daemon := demo.adapter)
            demo.cfg 5 demo.Idle demo.Go demo.Tick demo.w0
            (st1 := demo.Closed) (st2 := demo.Closed)); reflexivity.
Defined.

Lemma RegisterConf_registers_then_unknown_event_witness :
  executeDaemonEvent (Daemon := demo.adapter)
    (RegisterConf 5%nat [] 100 None (Some demo.Tick)) demo.w0
  = (Some (ErrUnknownDaemonEvent KRegisterConf),
     {| daemon := [CallRegisterConfirmationsNtfn 5%nat [] 1 100];
        trace :=
          [ObsExec (RegisterConf 5%nat [] 100 None (Some demo.Tick));
           ObsCall (CallRegisterConfirmationsNtfn 5%nat [] 1 100);
           ObsSpawn (TaskAwaitConf 5%nat (Some demo.Tick))] |}).
Proof.
  apply (RegisterConf_registers_then_unknown_event (H := demo.externals)
           (Daemon := demo.adapter) 5%nat [] 100 None (Some demo.Tick)
           demo.w0).
  reflexivity.
Defined.

(** [Publish 0] from [Idle]: the first transition commits [Working], the
    second one emits three effects of which the second, the broadcast, is
    refused. *)
Lemma transition_error_aborts_reports_stops_witness :
  exists w' : World,
    applyEvents (StateI := demo.state) (Daemon := demo.adapter)
      demo.cfg 2 demo.Idle (demo.Publish 0) demo.w0
    = (Finished demo.Working
         (Some (Errorf "unable to broadcast txn" (ErrExternal 1%nat))), w') /\
    (exists tr,
       trace w' = trace demo.w0 ++ tr /\
       demo.Working = lastCommitted demo.Idle tr) /\
    driveLoop (EnvI := demo.env) (StateI := demo.state)
      (Daemon := demo.adapter) demo.cfg 2 demo.Idle
      [SelEvent (demo.Publish 0); SelEvent demo.Tick] demo.w0
    = (Returned,
       record (ObsSpawn TaskStop)
         (record
            (ObsReport (Errorf "unable to broadcast txn" (ErrExternal 1%nat)))
            w')).
Proof.
  eexists.
  eapply (transition_error_aborts_reports_stops (EnvI := demo.env)
            (StateI := demo.state) (Daemon := demo.adapter)
            (cfg := demo.cfg) (n := 1) (fuel := 2)
            (cur0 := demo.Idle) (cur := demo.Working)
            (e0 := demo.Publish 0) (e := demo.Publish 0) (q := [])
            (w0 := demo.w0)).
  - eapply Reaches_step; [reflexivity | apply Reaches_here].
  - right.
    eexists;
      exists [DisableChannelEvent (H := demo.externals) 8%nat];
      exists (BroadcastTxn (H := demo.externals) 0%nat "published"%string);
      exists [DisableChannelEvent (H := demo.externals) 9%nat]; eexists.
    repeat split; reflexivity.
  - lia.
Defined.

End Demo.

(** * Further properties of the driver *)

Section Schedule.
Import protofsm.
Context `{Externals}.
Context {Event Env St A : Type}.
Context {EnvI : Environment Env}.
Context {StateI : State Event Env St}.
Context {Daemon : DaemonAdapters A}.
Variable cfg : StateMachineCfg (Event := Event) (Env := Env) (St := St).

Implicit Types (w : World (Event := Event) (St := St) (A := A)).
Implicit Types (tr : list (Obs (Event := Event) (St := St))).


(** One transition adds at most one event to the queue. *)
Lemma applyOne_queue (e : Event) (cur : St) (q : list Event) w :
  (List.length
     (eventQueue
        (snd (applyOne cfg e
                {| currentState := cur; eventQueue := q; world := w |})))
   <= S (List.length q))%nat.
Proof.
  unfold applyOne; cbn [currentState eventQueue world].
  destruct (ProcessEvent cur e (Env_ cfg)) as [t|err]; cbn; [|lia].
  destruct (NewEvents t) as [events|]; cbn [fn.MapOptionZ]; [|cbn; lia].
  unfold emitEvents.
  destruct (fn.MapOptionZ (fun w0 => (None, w0)) (ExternalEvents events)
              execDaemonEvents (record (ObsProcess cur e) w))
    as [[err|] w1]; cbn; [lia|].
  destruct (InternalEvent events); cbn; [|lia].
  unfold fn.Enqueue; rewrite length_app; cbn; lia.
Qed.

Lemma BurstReaches_queue (n : nat) (ls ls' : LoopState) :
  BurstReaches cfg n ls ls' ->
  (List.length (eventQueue ls) <= 1)%nat ->
  (List.length (eventQueue ls') <= 1)%nat.
Proof.
  induction 1 as [ls|n cur e q w ls1 ls2 S1 R IH]; intros L; [exact L|].
  apply IH.
  pose proof (applyOne_queue e cur q w) as Q; rewrite S1 in Q.
  cbn [snd eventQueue List.length] in *; lia.
Qed.

(** X4.  However many transitions a burst of [applyEvents] has gone through,
    its queue holds at most one event: a transition is given at most one
    internal event to emit, and it is processed before any other is
    enqueued. *)
Theorem applyEvents_queue_at_most_one
    (n : nat) (cur0 : St) (e0 : Event) w0 (ls : LoopState) :
  BurstReaches cfg n
    {| currentState := cur0; eventQueue := fn.NewQueue e0; world := w0 |}
    ls ->
  (List.length (eventQueue ls) <= 1)%nat.
Proof.
  intros R; apply (BurstReaches_queue R); cbn; lia.
Qed.

(** *** Commits follow the transition function *)




Lemma executeDaemonEvent_steps (d : DaemonEvent Event) w :
  exists tr,
    trace (snd (executeDaemonEvent d w)) = trace w ++ ObsExec d :: tr /\
    driverView tr = [] /\
    ~ In (ObsSpawn TaskStop) tr.
Proof.
  unfold executeDaemonEvent, daemonSwitch, sendAndCleanUp.
  destruct d; cbn [negb fn.IsSome];
    repeat match goal with
           | |- context [match ?x with _ => _ end] =>
               lazymatch x with
               | context [match _ with _ => _ end] => fail
               | _ => destruct x eqn:?
               end
           end;
    repeat match goal with
           | E : (_, _) = (_, _) |- _ => inversion E; subst; clear E
           end;
    cbn [snd fst trace record setDaemon daemon];
    rewrite <- ?app_assoc; cbn [app];
    eexists; (split; [reflexivity | split; [reflexivity|]]);
    cbn [In]; intros F;
    repeat match goal with
           | F : _ \/ _ |- _ => destruct F as [F|F]
           end;
    try discriminate; try exact F.
Qed.



(** *** CleanUp in the trace *)







(** *** Effects that cannot succeed, and a failing InitEvent *)

Lemma executeDaemonEvent_never_nil (d : DaemonEvent Event) w :
  kindOf d = KRegisterConf \/ kindOf d = KOther ->
  fst (executeDaemonEvent d w) <> None.
Proof.
  unfold executeDaemonEvent, daemonSwitch.
  destruct d; cbn [kindOf]; intros [K|K]; try discriminate K.
  - destruct (RegisterConfirmationsNtfn Txid PkScript
                (fn.UnwrapOr NumConfs 1) HeightHint
                (daemon (record
                   (ObsExec (RegisterConf Txid PkScript HeightHint NumConfs
                               PostConfEvent)) w)))
      as [[confEvent|err] a]; cbn; discriminate.
  - cbn; discriminate.
Qed.

Lemma execDaemonEvents_never_nil (ds : DaemonEventSet Event) w
    (d : DaemonEvent Event) :
  In d ds ->
  kindOf d = KRegisterConf \/ kindOf d = KOther ->
  fst (execDaemonEvents ds w) <> None.
Proof.
  revert w; induction ds as [|x ds IH]; intros w I K; [destruct I|].
  cbn [execDaemonEvents].
  destruct (executeDaemonEvent x w) as [[err|] w1] eqn:X;
    [cbn; discriminate|].
  destruct I as [->|I]; [|apply IH; assumption].
  exfalso; apply (@executeDaemonEvent_never_nil d w K); rewrite X; reflexivity.
Qed.

(** X8.  A transition that emits a [RegisterConf] among its external events
    (or an event of a type the driver does not know) never commits: the
    burst stops with an error at that transition, the current state stays
    what it was and nothing is published, whether or not the adapter
    accepts the registration. *)
Theorem transition_with_RegisterConf_never_commits
    (e : Event) (cur : St) (q : list Event) w
    (t : StateTransition Event St) (d : DaemonEvent Event) :
  ProcessEvent cur e (Env_ cfg) = inl t ->
  In d (externalsOf t) ->
  kindOf d = KRegisterConf \/ kindOf d = KOther ->
  let r :=
    applyOne cfg e {| currentState := cur; eventQueue := q; world := w |} in
  fst r <> None /\
  currentState (snd r) = cur /\
  notified (trace (world (snd r))) = notified (trace w).
Proof.
  intros P I K r.
  assert (F : fst r <> None).
  { subst r; unfold applyOne; cbn [currentState eventQueue world].
    rewrite P; unfold externalsOf in I.
    destruct (NewEvents t) as [events|]; [|destruct I].
    cbn [fn.MapOptionZ]; unfold emitEvents.
    destruct (ExternalEvents events) as [ds|]; cbn [fn.UnwrapOr] in I;
      [|destruct I].
    cbn [fn.MapOptionZ].
    pose proof (@execDaemonEvents_never_nil ds
                  (record (ObsProcess cur e) w) d I K) as N.
    destruct (execDaemonEvents ds (record (ObsProcess cur e) w))
      as [[err|] w1]; cbn in *; [discriminate | congruence]. }
  split; [exact F|].
  pose proof (applyOne_spec cfg e cur q w) as S; cbn zeta in S.
  fold r in S; destruct S as (tr & T & S); rewrite P in S.
  destruct (fst r) as [err|]; [|congruence].
  destruct S as ((before & d' & after & X & V) & C); split; [exact C|].
  rewrite T, notified_app, <- (notified_driverView tr), V.
  cbn [notified]; rewrite (proj1 (scan_Exec (St := St) _)), app_nil_r.
  reflexivity.
Qed.

(** X7.  When the [InitEvent] fails the driver returns at once: the initial
    state is not published, no event of the schedule is processed, the error
    is not handed to the [ErrorReporter] and [Stop] is not launched. *)
Theorem failed_InitEvent_returns_silently
    (fuel : nat) (sched : list Select) w (d : DaemonEvent Event) :
  InitEvent cfg = Some d ->
  fst (executeDaemonEvent d w) <> None ->
  driveMachine cfg fuel sched w = (Returned, snd (executeDaemonEvent d w)) /\
  exists tr,
    trace (snd (executeDaemonEvent d w)) = trace w ++ ObsExec d :: tr /\
    driverView tr = [] /\ ~ In (ObsSpawn TaskStop) tr.
Proof.
  intros I F; split; [|apply executeDaemonEvent_steps].
  unfold driveMachine; rewrite I; cbn [fn.MapOptionZ].
  destruct (executeDaemonEvent d w) as [[err|] w1]; cbn in *;
    [reflexivity | congruence].
Qed.

(** *** SendMessage and the events channel *)

(** X9.  [SendMessage] hands the events channel at most the one event the
    mapper makes of the message and leaves what is already there alone; and
    when [quit] fires first it hands over nothing and still returns what
    [CanHandle] says, so true for a message that was mapped and dropped. *)
Theorem SendMessage_hands_over_at_most_one
    (p : fn.Pick) (msg : Message) (events : list Event) :
  SendMessage cfg fn.PickQuit msg events = (CanHandle cfg msg, events) /\
  exists sent,
    snd (SendMessage cfg p msg events) = events ++ sent /\
    (sent = [] \/
     exists mapper e,
       MsgMapper_ cfg = Some mapper /\ mapper msg = Some e /\
       p = fn.PickSend /\ sent = [e]).
Proof.
  unfold SendMessage, CanHandle, SendEvent.
  destruct (MsgMapper_ cfg) as [mapper|]; cbn [fn.IsSome negb fn.MapOptionZ].
  2:{ split; [reflexivity|]. exists []; rewrite app_nil_r; auto. }
  destruct (mapper msg) as [e|] eqn:M; cbn [fn.IsSome fst snd].
  2:{ split; [reflexivity|]. exists []; rewrite app_nil_r; auto. }
  split; [reflexivity|].
  destruct p.
  - exists [e]; split; [reflexivity|]. right; exists mapper, e; auto.
  - exists []; rewrite app_nil_r; auto.
Qed.

End Schedule.

(** * Start and Stop *)

Section Lifecycle.
Import protofsm.

Lemma lifecycle_latched (cs : list LifecycleCall) (s : Latches) :
  driversLaunched (lifecycle cs s)
  = (driversLaunched s
     + (if startOnce s then 0 else if existsb isStart cs then 1 else 0))%nat /\
  quitClosed (lifecycle cs s)
  = (quitClosed s
     + (if stopOnce s then 0 else if existsb isStop cs then 1 else 0))%nat.
Proof.
  unfold lifecycle; revert s; induction cs as [|c cs IH]; intros s.
  - cbn; destruct (startOnce s), (stopOnce s); lia.
  - cbn [fold_left existsb]; destruct (IH (match c with
                                           | DoStart => Start s
                                           | DoStop => Stop s
                                           end)) as (D & Q).
    rewrite D, Q; clear D Q IH.
    destruct c; unfold Start, Stop; cbn [isStart isStop orb];
      destruct (startOnce s) eqn:S1, (stopOnce s) eqn:S2;
      cbn [startOnce stopOnce driversLaunched quitClosed];
      rewrite ?S1, ?S2; try lia;
      destruct (existsb isStart cs), (existsb isStop cs); lia.
Qed.

(** X10.  Whatever [Start] and [Stop] calls a fresh state machine gets, in
    whatever order, one driver is launched if there is a [Start] among them
    and none otherwise, and [quit] is closed once if there is a [Stop] and
    not at all otherwise: never two drivers, never a second close.  A
    [Start] that comes after a [Stop] still launches the driver. *)
Theorem Start_Stop_once (cs : list LifecycleCall) :
  driversLaunched (lifecycle cs NewLatches)
  = (if existsb isStart cs then 1 else 0)%nat /\
  quitClosed (lifecycle cs NewLatches)
  = (if existsb isStop cs then 1 else 0)%nat.
Proof.
  destruct (lifecycle_latched cs NewLatches) as (D & Q).
  rewrite D, Q; cbn; auto.
Qed.

End Lifecycle.

(** * The adapter and the effects *)

Section Adapter.
Import protofsm.
Context `{Externals}.
Context {Event Env St A : Type}.
Context {EnvI : Environment Env}.
Context {StateI : State Event Env St}.
Context {Daemon : DaemonAdapters A}.
Variable cfg : StateMachineCfg (Event := Event) (Env := Env) (St := St).

Implicit Types (w : World (Event := Event) (St := St) (A := A)).
Implicit Types (tr : list (Obs (Event := Event) (St := St))).

Lemma calls_app tr1 tr2 : calls (tr1 ++ tr2) = calls tr1 ++ calls tr2.
Proof.
  induction tr1 as [|o tr1 IH]; [reflexivity|].
  destruct o; cbn; rewrite ?IH; reflexivity.
Qed.

Lemma execs_app tr1 tr2 : execs (tr1 ++ tr2) = execs tr1 ++ execs tr2.
Proof.
  induction tr1 as [|o tr1 IH]; [reflexivity|].
  destruct o; cbn; rewrite ?IH; reflexivity.
Qed.

Lemma AdapterFollows_refl w : AdapterFollows w w.
Proof. exists []; rewrite app_nil_r; auto. Qed.

Lemma AdapterFollows_trans w1 w2 w3 :
  AdapterFollows w1 w2 -> AdapterFollows w2 w3 -> AdapterFollows w1 w3.
Proof.
  intros (t1 & T1 & C1 & D1) (t2 & T2 & C2 & D2).
  exists (t1 ++ t2); split; [|split].
  - rewrite T2, T1, app_assoc; reflexivity.
  - rewrite calls_app, execs_app, flat_map_app, C1, C2; reflexivity.
  - rewrite calls_app, fold_left_app, <- D1; exact D2.
Qed.

Lemma AdapterFollows_record (o : Obs) w :
  calls [o] = [] -> execs [o] = [] -> AdapterFollows w (record o w).
Proof.
  intros C E; exists [o]; rewrite C, E; auto.
Qed.

Lemma AdapterFollows_exec (d : DaemonEvent Event) w :
  AdapterFollows w (snd (executeDaemonEvent d w)).
Proof.
  unfold AdapterFollows, executeDaemonEvent, daemonSwitch, sendAndCleanUp.
  destruct d as [peer msgs sendWhen post|cp|tx label|op script hint post
                 |txid script hint numConfs post|];
    cbn [negb fn.IsSome daemon record].
  - destruct sendWhen as [pred|]; cbn [negb fn.IsSome].
    + eexists; split;
        [cbn [snd trace record]; rewrite <- ?app_assoc; reflexivity|].
      split; reflexivity.
    + destruct (SendMessages peer msgs (daemon w)) as [r a] eqn:E.
      destruct r as [err|]; [|destruct post];
        (eexists; split;
         [cbn [snd trace record setDaemon]; rewrite <- ?app_assoc;
          reflexivity|];
         split; [reflexivity|]; cbn; rewrite E; reflexivity).
  - destruct (DisableChannel cp (daemon w)) as [r a] eqn:E.
    destruct r as [err|];
      (eexists; split;
       [cbn [snd trace record setDaemon]; rewrite <- ?app_assoc;
        reflexivity|];
       split; [reflexivity|]; cbn; rewrite E; reflexivity).
  - destruct (BroadcastTransaction tx label (daemon w)) as [r a] eqn:E.
    destruct r as [err|];
      (eexists; split;
       [cbn [snd trace record setDaemon]; rewrite <- ?app_assoc;
        reflexivity|];
       split; [reflexivity|]; cbn; rewrite E; reflexivity).
  - destruct (RegisterSpendNtfn op script hint (daemon w)) as [r a] eqn:E.
    destruct r as [spendEvent|err];
      (eexists; split;
       [cbn [snd trace record setDaemon]; rewrite <- ?app_assoc;
        reflexivity|];
       split; [reflexivity|]; cbn; rewrite E; reflexivity).
  - destruct (RegisterConfirmationsNtfn txid script
                (fn.UnwrapOr numConfs 1) hint (daemon w)) as [r a] eqn:E.
    destruct r as [confEvent|err];
      (eexists; split;
       [cbn [snd trace record setDaemon]; rewrite <- ?app_assoc;
        reflexivity|];
       split; [reflexivity|]; cbn; rewrite E; reflexivity).
  - eexists; split;
      [cbn [snd trace record]; rewrite <- ?app_assoc; reflexivity|].
    split; reflexivity.
Qed.

Lemma AdapterFollows_execDaemonEvents (ds : DaemonEventSet Event) w :
  AdapterFollows w (snd (execDaemonEvents ds w)).
Proof.
  revert w; induction ds as [|d ds IH]; intros w; cbn [execDaemonEvents].
  - apply AdapterFollows_refl.
  - pose proof (AdapterFollows_exec d w) as X.
    destruct (executeDaemonEvent d w) as [[err|] w1]; cbn [snd] in *;
      [exact X|].
    eapply AdapterFollows_trans; [exact X | apply IH].
Qed.

Lemma AdapterFollows_applyOne (e : Event) (ls : LoopState) :
  AdapterFollows (world ls) (world (snd (applyOne cfg e ls))).
Proof.
  unfold applyOne.
  assert (P : AdapterFollows (world ls)
                (record (ObsProcess (currentState ls) e) (world ls)))
    by (apply AdapterFollows_record; reflexivity).
  destruct (ProcessEvent (currentState ls) e (Env_ cfg)) as [t|err];
    [|exact P].
  eapply AdapterFollows_trans; [exact P|].
  destruct (NewEvents t) as [events|]; cbn [fn.MapOptionZ].
  2:{ cbn [snd world]; apply AdapterFollows_record; reflexivity. }
  unfold emitEvents.
  assert (X : AdapterFollows
                (record (ObsProcess (currentState ls) e) (world ls))
                (snd (fn.MapOptionZ (fun w0 => (None, w0))
                        (ExternalEvents events) execDaemonEvents
                        (record (ObsProcess (currentState ls) e) (world ls))))).
  { destruct (ExternalEvents events) as [ds|]; cbn [fn.MapOptionZ];
      [apply AdapterFollows_execDaemonEvents | apply AdapterFollows_refl]. }
  destruct (fn.MapOptionZ (fun w0 => (None, w0)) (ExternalEvents events)
              execDaemonEvents
              (record (ObsProcess (currentState ls) e) (world ls)))
    as [[err|] w1]; cbn [snd world] in *; [exact X|].
  eapply AdapterFollows_trans; [exact X|].
  destruct (InternalEvent events) as [ie|]; cbn [snd world].
  - eapply AdapterFollows_trans;
      apply AdapterFollows_record; reflexivity.
  - apply AdapterFollows_record; reflexivity.
Qed.

Lemma AdapterFollows_applyLoop (fuel : nat) (ls : LoopState) :
  AdapterFollows (world ls) (snd (applyLoop cfg fuel ls)).
Proof.
  revert ls; induction fuel as [|fuel IH]; intros [cur q w];
    cbn [applyLoop currentState eventQueue world].
  - destruct q; cbn; apply AdapterFollows_refl.
  - destruct q as [|e q]; cbn [fn.Dequeue]; [apply AdapterFollows_refl|].
    pose proof (AdapterFollows_applyOne e
                  {| currentState := cur; eventQueue := q; world := w |}) as X.
    cbn [world] in X.
    destruct (applyOne cfg e
                {| currentState := cur; eventQueue := q; world := w |})
      as [[err|] ls1]; cbn [snd] in *; [exact X|].
    eapply AdapterFollows_trans; [exact X | apply IH].
Qed.

Lemma AdapterFollows_driveLoop (fuel : nat) (sched : list Select) :
  forall (cur : St) w,
    AdapterFollows w (snd (driveLoop cfg fuel cur sched w)).
Proof.
  induction sched as [|sel rest IH]; intros cur w; cbn [driveLoop];
    [apply AdapterFollows_refl|].
  destruct sel as [e|reply|].
  - pose proof (AdapterFollows_applyLoop fuel
      {| currentState := cur; eventQueue := fn.NewQueue e; world := w |}) as X.
    unfold applyEvents; cbn [world] in X.
    destruct (applyLoop cfg fuel
      {| currentState := cur; eventQueue := fn.NewQueue e; world := w |})
      as [[st [err|]|st pending] w1]; cbn [snd] in *.
    + eapply AdapterFollows_trans; [exact X|].
      eapply AdapterFollows_trans; apply AdapterFollows_record; reflexivity.
    + eapply AdapterFollows_trans; [exact X|].
      destruct (IsTerminal st); [|apply IH].
      eapply AdapterFollows_trans; [|apply IH].
      apply AdapterFollows_record; reflexivity.
    + exact X.
  - destruct reply; cbn [fn.SendOrQuit negb];
      [|apply AdapterFollows_refl].
    eapply AdapterFollows_trans; [|apply IH].
    apply AdapterFollows_record; reflexivity.
  - apply AdapterFollows_refl.
Qed.

(** *** Relations that every step of the driver preserves *)

Section Closure.
Variable R : World (Event := Event) (St := St) (A := A) ->
             World (Event := Event) (St := St) (A := A) -> Prop.
Hypothesis R_refl : forall w, R w w.
Hypothesis R_trans : forall w1 w2 w3, R w1 w2 -> R w2 w3 -> R w1 w3.
Hypothesis R_record : forall (o : Obs) w, byDriverLoop o = true -> R w (record o w).
Hypothesis R_exec :
  forall (d : DaemonEvent Event) w, R w (snd (executeDaemonEvent d w)).

Lemma closure_execDaemonEvents (ds : DaemonEventSet Event) w :
  R w (snd (execDaemonEvents ds w)).
Proof.
  revert w; induction ds as [|d ds IH]; intros w; cbn [execDaemonEvents].
  - apply R_refl.
  - pose proof (R_exec d w) as X.
    destruct (executeDaemonEvent d w) as [[err|] w1]; cbn [snd] in *;
      [exact X|].
    eapply R_trans; [exact X | apply IH].
Qed.

Lemma closure_applyOne (e : Event) (ls : LoopState) :
  R (world ls) (world (snd (applyOne cfg e ls))).
Proof.
  unfold applyOne.
  assert (P : R (world ls)
                (record (ObsProcess (currentState ls) e) (world ls)))
    by (apply R_record; reflexivity).
  destruct (ProcessEvent (currentState ls) e (Env_ cfg)) as [t|err];
    [|exact P].
  eapply R_trans; [exact P|].
  destruct (NewEvents t) as [events|]; cbn [fn.MapOptionZ].
  2:{ cbn [snd world]; apply R_record; reflexivity. }
  unfold emitEvents.
  assert (X : R (record (ObsProcess (currentState ls) e) (world ls))
                (snd (fn.MapOptionZ (fun w0 => (None, w0))
                        (ExternalEvents events) execDaemonEvents
                        (record (ObsProcess (currentState ls) e) (world ls))))).
  { destruct (ExternalEvents events) as [ds|]; cbn [fn.MapOptionZ];
      [apply closure_execDaemonEvents | apply R_refl]. }
  destruct (fn.MapOptionZ (fun w0 => (None, w0)) (ExternalEvents events)
              execDaemonEvents
              (record (ObsProcess (currentState ls) e) (world ls)))
    as [[err|] w1]; cbn [snd world] in *; [exact X|].
  eapply R_trans; [exact X|].
  destruct (InternalEvent events) as [ie|]; cbn [snd world].
  - eapply R_trans; apply R_record; reflexivity.
  - apply R_record; reflexivity.
Qed.

Lemma closure_applyLoop (fuel : nat) (ls : LoopState) :
  R (world ls) (snd (applyLoop cfg fuel ls)).
Proof.
  revert ls; induction fuel as [|fuel IH]; intros [cur q w];
    cbn [applyLoop currentState eventQueue world].
  - destruct q; cbn; apply R_refl.
  - destruct q as [|e q]; cbn [fn.Dequeue]; [apply R_refl|].
    pose proof (closure_applyOne e
                  {| currentState := cur; eventQueue := q; world := w |}) as X.
    cbn [world] in X.
    destruct (applyOne cfg e
                {| currentState := cur; eventQueue := q; world := w |})
      as [[err|] ls1]; cbn [snd] in *; [exact X|].
    eapply R_trans; [exact X | apply IH].
Qed.

Lemma closure_driveLoop (fuel : nat) (sched : list Select) :
  forall (cur : St) w, R w (snd (driveLoop cfg fuel cur sched w)).
Proof.
  induction sched as [|sel rest IH]; intros cur w; cbn [driveLoop];
    [apply R_refl|].
  destruct sel as [e|reply|].
  - pose proof (closure_applyLoop fuel
      {| currentState := cur; eventQueue := fn.NewQueue e; world := w |}) as X.
    unfold applyEvents; cbn [world] in X.
    destruct (applyLoop cfg fuel
      {| currentState := cur; eventQueue := fn.NewQueue e; world := w |})
      as [[st [err|]|st pending] w1]; cbn [snd] in *.
    + eapply R_trans; [exact X|].
      eapply R_trans; apply R_record; reflexivity.
    + eapply R_trans; [exact X|].
      destruct (IsTerminal st); [|apply IH].
      eapply R_trans; [|apply IH].
      apply R_record; reflexivity.
    + exact X.
  - destruct reply; cbn [fn.SendOrQuit negb]; [|apply R_refl].
    eapply R_trans; [|apply IH].
    apply R_record; reflexivity.
  - apply R_refl.
Qed.

Lemma closure_driveMachine (fuel : nat) (sched : list Select) w :
  R w (snd (driveMachine cfg fuel sched w)).
Proof.
  unfold driveMachine.
  assert (X : R w (snd (fn.MapOptionZ (fun w0 => (None, w0)) (InitEvent cfg)
                          executeDaemonEvent w))).
  { destruct (InitEvent cfg) as [d|]; cbn [fn.MapOptionZ];
      [apply R_exec | apply R_refl]. }
  destruct (fn.MapOptionZ (fun w0 => (None, w0)) (InitEvent cfg)
              executeDaemonEvent w) as [[err|] w1]; cbn [snd] in *;
    [exact X|].
  eapply R_trans; [exact X|].
  eapply R_trans; [|apply closure_driveLoop].
  apply R_record; reflexivity.
Qed.

End Closure.

Lemma effectView_app tr1 tr2 :
  effectView (tr1 ++ tr2) = effectView tr1 ++ effectView tr2.
Proof. apply filter_app. Qed.

Lemma pollers_app tr1 tr2 : pollers (tr1 ++ tr2) = pollers tr1 ++ pollers tr2.
Proof.
  induction tr1 as [|o tr1 IH]; [reflexivity|].
  destruct o as [| | |t| | | | |]; cbn [app pollers]; try exact IH.
  destruct t; cbn [app pollers]; rewrite ?IH; reflexivity.
Qed.

Lemma effectSteps_app (ds1 ds2 : list (DaemonEvent Event)) :
  effectSteps (St := St) (ds1 ++ ds2) = effectSteps ds1 ++ effectSteps ds2.
Proof. apply flat_map_app. Qed.

Lemma EffectsFollow_refl w : EffectsFollow w w.
Proof. exists []; rewrite app_nil_r; auto. Qed.

Lemma EffectsFollow_trans w1 w2 w3 :
  EffectsFollow w1 w2 -> EffectsFollow w2 w3 -> EffectsFollow w1 w3.
Proof.
  intros (t1 & T1 & C1 & D1) (t2 & T2 & C2 & D2).
  exists (t1 ++ t2); split; [|split].
  - rewrite T2, T1, app_assoc; reflexivity.
  - rewrite effectView_app, execs_app, effectSteps_app, C1, C2; reflexivity.
  - rewrite pollers_app, execs_app, filter_app, D1, D2; reflexivity.
Qed.

Lemma EffectsFollow_record (o : Obs) w :
  byDriverLoop o = true -> EffectsFollow w (record o w).
Proof.
  intros B; exists [o]; split; [reflexivity|].
  destruct o as [| | |t| | | | |]; try discriminate B; try (split; reflexivity).
  destruct t; try discriminate B; split; reflexivity.
Qed.

Lemma EffectsFollow_exec (d : DaemonEvent Event) w :
  EffectsFollow w (snd (executeDaemonEvent d w)).
Proof.
  unfold EffectsFollow, executeDaemonEvent, daemonSwitch, sendAndCleanUp.
  destruct d as [peer msgs sendWhen post|cp|tx label|op script hint post
                 |txid script hint numConfs post|];
    cbn [negb fn.IsSome daemon record].
  - destruct sendWhen as [pred|]; cbn [negb fn.IsSome].
    + eexists; split;
        [cbn [snd trace record]; rewrite <- ?app_assoc; reflexivity|].
      split; reflexivity.
    + destruct (SendMessages peer msgs (daemon w)) as [r a].
      destruct r as [err|]; [|destruct post];
        (eexists; split;
         [cbn [snd trace record setDaemon]; rewrite <- ?app_assoc;
          reflexivity|];
         split; reflexivity).
  - destruct (DisableChannel cp (daemon w)) as [r a].
    destruct r as [err|];
      (eexists; split;
       [cbn [snd trace record setDaemon]; rewrite <- ?app_assoc;
        reflexivity|];
       split; reflexivity).
  - destruct (BroadcastTransaction tx label (daemon w)) as [r a].
    destruct r as [err|];
      (eexists; split;
       [cbn [snd trace record setDaemon]; rewrite <- ?app_assoc;
        reflexivity|];
       split; reflexivity).
  - destruct (RegisterSpendNtfn op script hint (daemon w)) as [r a].
    destruct r as [spendEvent|err];
      (eexists; split;
       [cbn [snd trace record setDaemon]; rewrite <- ?app_assoc;
        reflexivity|];
       split; reflexivity).
  - destruct (RegisterConfirmationsNtfn txid script
                (fn.UnwrapOr numConfs 1) hint (daemon w)) as [r a].
    destruct r as [confEvent|err];
      (eexists; split;
       [cbn [snd trace record setDaemon]; rewrite <- ?app_assoc;
        reflexivity|];
       split; reflexivity).
  - eexists; split;
      [cbn [snd trace record]; rewrite <- ?app_assoc; reflexivity|].
    split; reflexivity.
Qed.

(** X1.  In a run of the driver, every adapter call that the driver itself
    makes is the call of an effect it executed, made directly after the
    entry into [executeDaemonEvent] for that effect and before the next
    effect is entered: one call for a send without predicate, a broadcast,
    a disable and a registration (with one confirmation when [NumConfs] is
    not given), none for an unknown event.  For a send that waits on a
    predicate the driver makes no call itself: it launches one poller for
    that send, and launches pollers for nothing else.  (What a poller does
    later, the call to [SendMessages] included, is outside the driver's
    goroutine and outside this trace.) *)
Theorem adapter_calls_follow_effects
    (fuel : nat) (sched : list Select) w :
  exists tr,
    trace (snd (driveMachine cfg fuel sched w)) = trace w ++ tr /\
    effectView tr = effectSteps (execs tr) /\
    calls tr = flat_map callsOf (execs tr) /\
    pollers tr = filter isPredicatedSend (execs tr).
Proof.
  pose proof (@closure_driveMachine EffectsFollow EffectsFollow_refl
                EffectsFollow_trans EffectsFollow_record EffectsFollow_exec
                fuel sched w) as (tr & T & V & P).
  assert (AF : AdapterFollows w (snd (driveMachine cfg fuel sched w))).
  { unfold driveMachine.
    assert (X : AdapterFollows w
                  (snd (fn.MapOptionZ (fun w0 => (None, w0)) (InitEvent cfg)
                          executeDaemonEvent w))).
    { destruct (InitEvent cfg) as [d|]; cbn [fn.MapOptionZ];
        [apply AdapterFollows_exec | apply AdapterFollows_refl]. }
    destruct (fn.MapOptionZ (fun w0 => (None, w0)) (InitEvent cfg)
                executeDaemonEvent w) as [[err|] w1]; cbn [snd] in *;
      [exact X|].
    eapply AdapterFollows_trans; [exact X|].
    eapply AdapterFollows_trans; [|apply AdapterFollows_driveLoop].
    apply AdapterFollows_record; reflexivity. }
  destruct AF as (tr' & T' & C & _).
  assert (tr' = tr)
    by (apply (app_inv_head (trace w)); rewrite <- T, <- T'; reflexivity).
  subst tr'; exists tr; auto.
Qed.

(** *** State queries change nothing *)

Lemma record_prepend (pre : list Obs) (o : Obs) w :
  record o (prepend pre w) = prepend pre (record o w).
Proof. unfold record, prepend; cbn; rewrite app_assoc; reflexivity. Qed.

Lemma setDaemon_prepend (pre : list Obs) (a : A) w :
  setDaemon a (prepend pre w) = prepend pre (setDaemon a w).
Proof. reflexivity. Qed.

Lemma prepend_self w :
  w = prepend (trace w) {| daemon := daemon w; trace := [] |}.
Proof. destruct w; unfold prepend; cbn; rewrite app_nil_r; reflexivity. Qed.

Lemma record_as_prepend (o : Obs) w :
  record o w
  = prepend (trace w ++ [o]) {| daemon := daemon w; trace := [] |}.
Proof. unfold record, prepend; cbn; rewrite app_nil_r; reflexivity. Qed.

Lemma executeDaemonEvent_prepend (pre : list Obs) (d : DaemonEvent Event) w :
  executeDaemonEvent d (prepend pre w)
  = (fst (executeDaemonEvent d w), prepend pre (snd (executeDaemonEvent d w))).
Proof.
  destruct w as [a0 t0].
  unfold executeDaemonEvent, daemonSwitch, sendAndCleanUp, prepend, record,
    setDaemon.
  destruct d as [peer msgs sendWhen post|cp|tx label|op script hint post
                 |txid script hint numConfs post|];
    cbn [negb fn.IsSome daemon trace].
  - destruct sendWhen as [pred|]; cbn [negb fn.IsSome fst snd daemon trace];
      [rewrite <- !app_assoc; reflexivity|].
    destruct (SendMessages peer msgs a0) as [[err|] a];
      [|destruct post]; cbn [fst snd daemon trace];
      rewrite <- !app_assoc; reflexivity.
  - destruct (DisableChannel cp a0) as [[err|] a];
      cbn [fst snd daemon trace]; rewrite <- !app_assoc; reflexivity.
  - destruct (BroadcastTransaction tx label a0) as [[err|] a];
      cbn [fst snd daemon trace]; rewrite <- !app_assoc; reflexivity.
  - destruct (RegisterSpendNtfn op script hint a0)
      as [[spendEvent|err] a]; cbn [fst snd daemon trace];
      rewrite <- !app_assoc; reflexivity.
  - destruct (RegisterConfirmationsNtfn txid script
                (fn.UnwrapOr numConfs 1) hint a0)
      as [[confEvent|err] a]; cbn [fst snd daemon trace];
      rewrite <- !app_assoc; reflexivity.
  - cbn [fst snd daemon trace]; rewrite <- !app_assoc; reflexivity.
Qed.

Lemma execDaemonEvents_prepend (pre : list Obs) (ds : DaemonEventSet Event) w :
  execDaemonEvents ds (prepend pre w)
  = (fst (execDaemonEvents ds w), prepend pre (snd (execDaemonEvents ds w))).
Proof.
  revert w; induction ds as [|d ds IH]; intros w; cbn [execDaemonEvents];
    [reflexivity|].
  rewrite executeDaemonEvent_prepend.
  destruct (executeDaemonEvent d w) as [[err|] w1]; cbn [fst snd];
    [reflexivity | apply IH].
Qed.

Lemma applyOne_prepend (pre : list Obs) (e : Event) (cur : St)
    (q : list Event) w :
  applyOne cfg e
    {| currentState := cur; eventQueue := q; world := prepend pre w |}
  = let r :=
      applyOne cfg e {| currentState := cur; eventQueue := q; world := w |} in
    (fst r,
     {| currentState := currentState (snd r);
        eventQueue := eventQueue (snd r);
        world := prepend pre (world (snd r)) |}).
Proof.
  unfold applyOne; cbn [currentState eventQueue world].
  rewrite record_prepend.
  destruct (ProcessEvent cur e (Env_ cfg)) as [t|err]; [|reflexivity].
  destruct (NewEvents t) as [events|]; cbn [fn.MapOptionZ].
  2:{ cbn; rewrite record_prepend; reflexivity. }
  unfold emitEvents.
  destruct (ExternalEvents events) as [ds|]; cbn [fn.MapOptionZ].
  - rewrite execDaemonEvents_prepend.
    destruct (execDaemonEvents ds (record (ObsProcess cur e) w))
      as [[err|] w1]; cbn [fst snd]; [reflexivity|].
    destruct (InternalEvent events); cbn; rewrite !record_prepend;
      reflexivity.
  - destruct (InternalEvent events); cbn; rewrite !record_prepend;
      reflexivity.
Qed.

Lemma applyLoop_prepend (pre : list Obs) (fuel : nat) :
  forall (cur : St) (q : list Event) w,
    applyLoop cfg fuel
      {| currentState := cur; eventQueue := q; world := prepend pre w |}
    = let r :=
        applyLoop cfg fuel
          {| currentState := cur; eventQueue := q; world := w |} in
      (fst r, prepend pre (snd r)).
Proof.
  induction fuel as [|fuel IH]; intros cur q w;
    cbn [applyLoop currentState eventQueue world].
  - destruct q; reflexivity.
  - destruct q as [|e q]; cbn [fn.Dequeue]; [reflexivity|].
    rewrite applyOne_prepend; cbn zeta.
    destruct (applyOne cfg e
                {| currentState := cur; eventQueue := q; world := w |})
      as [[err|] [cur1 q1 w1]]; cbn [fst snd currentState eventQueue world];
      [reflexivity | apply IH].
Qed.

Lemma driveLoop_prepend (pre : list Obs) (fuel : nat) (sched : list Select) :
  forall (cur : St) w,
    driveLoop cfg fuel cur sched (prepend pre w)
    = (fst (driveLoop cfg fuel cur sched w),
       prepend pre (snd (driveLoop cfg fuel cur sched w))).
Proof.
  induction sched as [|sel rest IH]; intros cur w; cbn [driveLoop];
    [reflexivity|].
  destruct sel as [e|reply|].
  - unfold applyEvents; rewrite applyLoop_prepend; cbn zeta.
    destruct (applyLoop cfg fuel
      {| currentState := cur; eventQueue := fn.NewQueue e; world := w |})
      as [[st [err|]|st pending] w1]; cbn [fst snd].
    + rewrite !record_prepend; reflexivity.
    + destruct (IsTerminal st); rewrite ?record_prepend; apply IH.
    + reflexivity.
  - destruct reply; cbn [fn.SendOrQuit negb]; [|reflexivity].
    rewrite record_prepend; apply IH.
  - reflexivity.
Qed.

Lemma dropReplies_app tr1 tr2 :
  dropReplies (tr1 ++ tr2) = dropReplies tr1 ++ dropReplies tr2.
Proof. apply filter_app. Qed.

Lemma driveLoop_dropQueries (fuel : nat) (sched : list Select) :
  forall (cur : St) w,
    fst (driveLoop cfg fuel cur sched w)
    = fst (driveLoop cfg fuel cur (dropQueries sched) w) /\
    daemon (snd (driveLoop cfg fuel cur sched w))
    = daemon (snd (driveLoop cfg fuel cur (dropQueries sched) w)) /\
    dropReplies (trace (snd (driveLoop cfg fuel cur sched w)))
    = dropReplies (trace (snd (driveLoop cfg fuel cur (dropQueries sched) w))).
Proof.
  induction sched as [|sel rest IH]; intros cur w; [auto|].
  destruct sel as [e|reply|].
  - change (dropQueries (SelEvent e :: rest))
      with (SelEvent e :: dropQueries rest).
    cbn [driveLoop].
    destruct (applyEvents cfg fuel cur e w) as [[st [err|]|st pending] w1];
      auto.
  - destruct reply.
    + change (dropQueries (SelStateQuery fn.PickSend :: rest))
        with (dropQueries rest).
      cbn [driveLoop fn.SendOrQuit negb].
      destruct (IH cur w) as (F & D & T).
      rewrite <- F, <- D, <- T; clear F D T IH.
      pose proof (driveLoop_prepend (trace w) fuel rest cur
                    {| daemon := daemon w; trace := [] |}) as P1.
      pose proof (driveLoop_prepend (trace w ++ [ObsReply cur]) fuel
                    rest cur {| daemon := daemon w; trace := [] |}) as P2.
      rewrite <- prepend_self in P1.
      rewrite <- (record_as_prepend (ObsReply cur) w) in P2.
      rewrite P1, P2; cbn [fst snd daemon prepend record trace].
      repeat split.
      rewrite !dropReplies_app; cbn [dropReplies filter isReply negb app].
      rewrite app_nil_r; reflexivity.
    + change (dropQueries (SelStateQuery fn.PickQuit :: rest))
        with (SelStateQuery fn.PickQuit :: dropQueries rest).
      cbn; auto.
  - change (dropQueries (SelQuit :: rest)) with (SelQuit :: dropQueries rest).
    cbn; auto.
Qed.

(** X5.  Answering a state query changes nothing but the answer: with the
    answered queries taken out of the schedule the driver ends in the same
    place, the adapter has received the same calls and is in the same
    state, and the trace is the same up to the replies. *)
Theorem state_queries_change_nothing
    (fuel : nat) (sched : list Select) w :
  fst (driveMachine cfg fuel sched w)
  = fst (driveMachine cfg fuel (dropQueries sched) w) /\
  daemon (snd (driveMachine cfg fuel sched w))
  = daemon (snd (driveMachine cfg fuel (dropQueries sched) w)) /\
  dropReplies (trace (snd (driveMachine cfg fuel sched w)))
  = dropReplies (trace (snd (driveMachine cfg fuel (dropQueries sched) w))).
Proof.
  unfold driveMachine.
  destruct (fn.MapOptionZ (fun w0 => (None, w0)) (InitEvent cfg)
              executeDaemonEvent w) as [[err|] w1]; [auto|].
  apply driveLoop_dropQueries.
Qed.

End Adapter.

(** ** The order inside a burst, with the adapter calls *)

Section BurstOrder.
Import protofsm.
Context `{Externals}.
Context {Event Env St A : Type}.
Context {EnvI : Environment Env}.
Context {StateI : State Event Env St}.
Context {Daemon : DaemonAdapters A}.
Variable cfg : StateMachineCfg (Event := Event) (Env := Env) (St := St).

Implicit Types (w : World (Event := Event) (St := St) (A := A)).
Implicit Types (tr : list (Obs (Event := Event) (St := St))).


















End BurstOrder.

(** ** A state query against the running driver *)

Section StateQuery.
Import protofsm.
Context `{Externals}.
Context {Event Env St A : Type}.
Context {EnvI : Environment Env}.
Context {StateI : State Event Env St}.
Context {Daemon : DaemonAdapters A}.
Variable cfg : StateMachineCfg (Event := Event) (Env := Env) (St := St).

Implicit Types (w : World (Event := Event) (St := St) (A := A)).
Implicit Types (tr : list (Obs (Event := Event) (St := St))).






End StateQuery.

(** ** Bursts and state queries on the small machine *)

Section DemoOrder.
Import protofsm.
#[local] Existing Instance demo.externals.
#[local] Existing Instance demo.adapter.
#[local] Existing Instance demo.env.
#[local] Existing Instance demo.state.

(** The burst of [Go] with its adapter calls: each effect is entered and
    its call made before the next one, and all of a transition's effects
    before its internal event is enqueued and its state committed. *)
Example demo_Go_steps :
  stepsView (trace (snd (applyEvents demo.cfg 5 demo.Idle demo.Go demo.w0)))
  = [ObsProcess demo.Idle demo.Go;
     ObsExec (DisableChannelEvent 7%nat);
     ObsCall (CallDisableChannel 7%nat);
     ObsExec (BroadcastTxn 1%nat "first"%string);
     ObsCall (CallBroadcastTransaction 1%nat "first"%string);
     ObsEnqueue demo.Step;
     ObsNotify demo.Working;
     ObsProcess demo.Working demo.Step;
     ObsExec (BroadcastTxn 2%nat "second"%string);
     ObsCall (CallBroadcastTransaction 2%nat "second"%string);
     ObsNotify demo.Closed] /\
  fst (applyEvents demo.cfg 5 demo.Idle demo.Go demo.w0)
  = Finished demo.Closed None.
Proof. split; reflexivity. Qed.

(** A query after the burst of [Go] is answered with [Closed]; without a
    reply, or with a late one, the caller times out; at shutdown it gets the
    shutting-down error; a driver whose [InitEvent] was refused takes no
    query. *)
Example demo_CurrentState :
  CurrentStateAfter demo.cfg 5 [SelEvent demo.Go] fn.PickSend fn.PickSend true
    demo.w0 = Some (inl demo.Closed) /\
  CurrentStateAfter demo.cfg 5 [SelEvent demo.Go] fn.PickSend fn.PickQuit true
    demo.w0 = Some (inr ErrTimeout) /\
  CurrentStateAfter demo.cfg 5 [SelEvent demo.Go] fn.PickSend fn.PickSend false
    demo.w0 = Some (inr ErrTimeout) /\
  CurrentStateAfter demo.cfg 5 [SelEvent demo.Go] fn.PickQuit fn.PickSend true
    demo.w0 = Some (inr ErrShuttingDown) /\
  CurrentStateAfter demo.cfgRefusedInit 5 [] fn.PickSend fn.PickSend true
    demo.w0 = None.
Proof. repeat split; reflexivity. Qed.

End DemoOrder.

(** * Further properties of the close states *)

Section CloseRouting.
Import chancloser.
Context `{protofsm.Externals} `{Wire} `{EnvTypes}.

(** X11.  [ShouldRouteTo] looks at the type of the state and the type of
    the event only: two sub-states that accept one common event accept
    exactly the same events; and an event that some sub-state accepts is a
    [SendOfferEvent], a [LocalSigReceived], an [OfferReceivedEvent] or a
    [SpendEvent], so [SendShutdown], [ShutdownReceived], [ShutdownComplete]
    and [ChannelFlushed] are routed to no sub-state. *)
Theorem ShouldRouteTo_by_type
    (s1 s2 : AsymmetricPeerState) (event : ProtocolEvent) :
  ShouldRouteTo s1 event = true ->
  ShouldRouteTo s2 event = true ->
  (forall event', ShouldRouteTo s1 event' = ShouldRouteTo s2 event') /\
  match event with
  | SendShutdown _ _ | ShutdownReceived _ _ | ShutdownComplete
  | ChannelFlushed _ _ => False
  | _ => True
  end.
Proof.
  destruct s1, s2, event; cbn; intros R1 R2; try discriminate;
    (split; [intros event'; reflexivity | exact I]).
Qed.

Lemma uint32_range (x : Z) : 0 <= uint32 x < 2 ^ 32.
Proof. unfold uint32; apply Z.mod_pos_bound; lia. Qed.

(** X12.  The event [SpendMapper] makes of a spend notification is accepted
    by [ClosePending] and by no other sub-state; it carries the spending
    transaction, and its height is the notification's height exactly when
    that height is not negative (a negative int32 comes out as a uint32
    above 2^31). *)
Theorem SpendMapper_routes_to_ClosePending
    (d : SpendDetail) (s : AsymmetricPeerState) :
  ShouldRouteTo s (SpendMapper d)
  = match s with AsClosePending _ => true | _ => false end /\
  exists h,
    SpendMapper d = SpendEvent (SpendingTx d) h /\
    0 <= h < 2 ^ 32 /\
    (h = SpendingHeight d <-> 0 <= SpendingHeight d < 2 ^ 32).
Proof.
  split; [destruct s; reflexivity|].
  exists (uint32 (SpendingHeight d)); split; [reflexivity|].
  split; [apply uint32_range|].
  split.
  - intros <-; apply uint32_range.
  - intros R; unfold uint32; apply Z.mod_small; exact R.
Qed.

Lemma append_cancel_l (p a b : string) :
  (p ++ a)%string = (p ++ b)%string -> a = b.
Proof.
  induction p as [|c p IH]; cbn; intros E; [exact E|].
  injection E as E; apply IH; exact E.
Qed.

Lemma append_cancel_paren (a b : string) :
  (a ++ ")")%string = (b ++ ")")%string -> a = b.
Proof.
  revert b; induction a as [|c a IH]; intros [|d b]; cbn; intros E.
  - reflexivity.
  - injection E as _ E; destruct b; discriminate.
  - injection E as _ E; destruct a; discriminate.
  - injection E as -> E; f_equal; apply IH; exact E.
Qed.

(** X13.  Two environments have the same [Name] exactly when their channel
    points print the same: the name identifies the channel and nothing else
    of the environment goes into it; and [CleanUp] returns nil for every
    environment. *)
Theorem Name_identifies_channel_point (e1 e2 : Environment) :
  (Name e1 = Name e2 <->
   OutPointString (ChanPoint e1) = OutPointString (ChanPoint e2)) /\
  protofsm.CleanUp (Environment := asEnvironment) e1 = None.
Proof.
  split; [|reflexivity].
  unfold Name; split.
  - intros E; apply append_cancel_l in E.
    apply append_cancel_paren; exact E.
  - intros ->; reflexivity.
Qed.

End CloseRouting.

Section CloseOutputs.
Import chancloser.
Variable ToSatoshis : MilliSatoshi -> Amount.
Variable DustLimitForSize : Z -> Amount.

(** X14.  An output that [DeriveCloseTxOuts] puts in the close transaction
    pays exactly the side's settled balance in satoshis to exactly the
    side's delivery script, is above the dust limit of that script and is
    not dust; an output left out belongs to a balance that is at most the
    limit. *)
Theorem DeriveCloseTxOuts_outputs (c : CloseChannelTerms) :
  match fst (DeriveCloseTxOuts ToSatoshis DustLimitForSize c) with
  | Some out =>
      PkScript out = LocalDeliveryScript (Scripts c) /\
      Value out = ToSatoshis (LocalBalance (Balances c)) /\
      DustLimitForSize (len (PkScript out)) < Value out /\
      LocalAmtIsDust ToSatoshis DustLimitForSize c = false
  | None =>
      ToSatoshis (LocalBalance (Balances c))
      <= DustLimitForSize (len (LocalDeliveryScript (Scripts c)))
  end /\
  match snd (DeriveCloseTxOuts ToSatoshis DustLimitForSize c) with
  | Some out =>
      PkScript out = RemoteDeliveryScript (Scripts c) /\
      Value out = ToSatoshis (RemoteBalance (Balances c)) /\
      DustLimitForSize (len (PkScript out)) < Value out /\
      RemoteAmtIsDust ToSatoshis DustLimitForSize c = false
  | None =>
      ToSatoshis (RemoteBalance (Balances c))
      <= DustLimitForSize (len (RemoteDeliveryScript (Scripts c)))
  end.
Proof.
  unfold DeriveCloseTxOuts, deriveTxOut, LocalAmtIsDust, RemoteAmtIsDust;
    cbn [fst snd].
  split.
  - destruct (Z.gtb_spec (ToSatoshis (LocalBalance (Balances c)))
      (DustLimitForSize (len (LocalDeliveryScript (Scripts c)))));
      cbn [PkScript Value]; [|lia].
    repeat split; try lia; try (apply Z.ltb_ge; lia).
  - destruct (Z.gtb_spec (ToSatoshis (RemoteBalance (Balances c)))
      (DustLimitForSize (len (RemoteDeliveryScript (Scripts c)))));
      cbn [PkScript Value]; [|lia].
    repeat split; try lia; try (apply Z.ltb_ge; lia).
Qed.

(** X15.  The two sides are treated alike: seen from the other side of the
    channel (balances and scripts swapped) the two outputs are the same two
    outputs in the other order, and the dust and fee answers for "local" are
    the answers for "remote". *)
Theorem close_terms_symmetric (c : CloseChannelTerms) (absoluteFee : Amount) :
  DeriveCloseTxOuts ToSatoshis DustLimitForSize (swapSides c)
  = (snd (DeriveCloseTxOuts ToSatoshis DustLimitForSize c),
     fst (DeriveCloseTxOuts ToSatoshis DustLimitForSize c)) /\
  LocalAmtIsDust ToSatoshis DustLimitForSize (swapSides c)
  = RemoteAmtIsDust ToSatoshis DustLimitForSize c /\
  RemoteAmtIsDust ToSatoshis DustLimitForSize (swapSides c)
  = LocalAmtIsDust ToSatoshis DustLimitForSize c /\
  LocalCanPayFees ToSatoshis (swapSides c) absoluteFee
  = RemoteCanPayFees ToSatoshis c absoluteFee /\
  RemoteCanPayFees ToSatoshis (swapSides c) absoluteFee
  = LocalCanPayFees ToSatoshis c absoluteFee /\
  swapSides (swapSides c) = c.
Proof.
  destruct c as [[lb rb] [ls rs]]; repeat split; reflexivity.
Qed.

End CloseOutputs.

(** * The further properties on the small machine *)

Section DemoMore.
Import protofsm.
#[local] Existing Instance demo.externals.
#[local] Existing Instance demo.adapter.
#[local] Existing Instance demo.env.
#[local] Existing Instance demo.state.
#[local] Existing Instance demo.wire.

(** After the first transition of the burst of [Go] the queue holds the
    internal event [Step] and nothing else. *)
Lemma applyEvents_queue_at_most_one_witness :
  (List.length
     (eventQueue
        (snd (applyOne demo.cfg demo.Go
                {| currentState := demo.Idle; eventQueue := [];
                   world := demo.w0 |})))
   <= 1)%nat.
Proof.
  apply (applyEvents_queue_at_most_one (cfg := demo.cfg) (n := 1)
           (cur0 := demo.Idle) (e0 := demo.Go) (w0 := demo.w0)).
  eapply Reaches_step; [reflexivity | apply Reaches_here].
Defined.

(** [Watch] emits a [RegisterConf] that the adapter accepts. *)
Lemma transition_with_RegisterConf_never_commits_witness :
  let r :=
    applyOne demo.cfg demo.Watch
      {| currentState := demo.Idle; eventQueue := []; world := demo.w0 |} in
  fst r <> None /\
  currentState (snd r) = demo.Idle /\
  notified (trace (world (snd r))) = notified (trace demo.w0).
Proof.
  eapply (transition_with_RegisterConf_never_commits demo.cfg demo.Watch
            demo.Idle [] demo.w0
            (RegisterConf (H := demo.externals) 5%nat [] 100 None
               (Some demo.Tick))).
  - reflexivity.
  - left; reflexivity.
  - left; reflexivity.
Defined.

Lemma failed_InitEvent_returns_silently_witness :
  driveMachine demo.cfgRefusedInit 5 demo.twice demo.w0
  = (Returned,
     snd (executeDaemonEvent
            (BroadcastTxn (H := demo.externals) 0%nat "init"%string)
            demo.w0)) /\
  exists tr,
    trace (snd (executeDaemonEvent
                  (BroadcastTxn (H := demo.externals) 0%nat "init"%string)
                  demo.w0))
    = trace demo.w0
        ++ ObsExec (BroadcastTxn (H := demo.externals) 0%nat "init"%string)
        :: tr /\
    driverView tr = [] /\ ~ In (ObsSpawn TaskStop) tr.
Proof.
  apply (failed_InitEvent_returns_silently demo.cfgRefusedInit 5 demo.twice
           demo.w0).
  - reflexivity.
  - cbn; discriminate.
Defined.

Lemma ShouldRouteTo_by_type_witness :
  (forall event',
     chancloser.ShouldRouteTo demo.pendingA event'
     = chancloser.ShouldRouteTo demo.pendingB event') /\
  True.
Proof.
  apply (ShouldRouteTo_by_type demo.pendingA demo.pendingB
           (chancloser.SpendMapper demo.spendAt800000)); reflexivity.
Defined.

(** The adapter of the small machine keeps the calls it got: after the two
    bursts of [demo.twice] these are the calls of the three effects, in the
    order the transitions emitted them. *)
Example demo_adapter_calls :
  daemon (snd (demo.run 5 demo.twice))
  = calls (trace (snd (demo.run 5 demo.twice))) /\
  calls (trace (snd (demo.run 5 demo.twice)))
  = flat_map callsOf (execs (trace (snd (demo.run 5 demo.twice)))).
Proof. split; reflexivity. Qed.

Example demo_spend :
  chancloser.SpendMapper demo.spendAt800000
  = chancloser.SpendEvent 9%nat 800000 /\
  chancloser.uint32 (-1) = 4294967295.
Proof. split; reflexivity. Qed.

Example demo_outputs_both :
  chancloser.DeriveCloseTxOuts demo.toSat demo.dustLimit demo.termsBoth
  = (Some {| chancloser.PkScript := demo.p2wpkh;
             chancloser.Value := 500000 |},
     Some {| chancloser.PkScript := demo.p2wpkh;
             chancloser.Value := 400000 |}).
Proof. reflexivity. Qed.

Example demo_lifecycle :
  lifecycle [DoStop; DoStart; DoStart; DoStop] NewLatches
  = {| startOnce := true; stopOnce := true;
       driversLaunched := 1; quitClosed := 1 |}.
Proof. reflexivity. Qed.

End DemoMore.

(** * Failures *)

Section Failures.
Import protofsm.
Context `{Externals}.
Context {Event Env St A : Type}.
Context {EnvI : Environment Env}.
Context {StateI : State Event Env St}.
Context {Daemon : DaemonAdapters A}.
Variable cfg : StateMachineCfg (Event := Event) (Env := Env) (St := St).

Implicit Types (w : World (Event := Event) (St := St) (A := A)).
Implicit Types (tr : list (Obs (Event := Event) (St := St))).

Lemma Burst_no_report cur q v res (err : error) :
  Burst cfg cur q v res -> ~ In (ObsReport err) v.
Proof.
  induction 1 as [cur|cur e q|cur e q err' P|cur e q t before d after err' P X
                  |cur e q t tr res P B IH]; cbn [In].
  - tauto.
  - tauto.
  - intros [F|[]]; discriminate F.
  - intros [F|F]; [discriminate F|].
    apply in_map_iff in F; destruct F as (x & F & _); discriminate F.
  - intros [F|F]; [discriminate F|].
    apply in_app_or in F; destruct F as [F|F].
    { apply in_map_iff in F; destruct F as (x & F & _); discriminate F. }
    apply in_app_or in F; destruct F as [F|F].
    { apply in_map_iff in F; destruct F as (x & F & _); discriminate F. }
    destruct F as [F|F]; [discriminate F | exact (IH F)].
Qed.

Lemma no_report_driverView tr (err : error) :
  ~ In (ObsReport err) (driverView tr) -> ~ In (ObsReport err) tr.
Proof.
  intros N F; apply N; apply filter_In; split; [exact F | reflexivity].
Qed.

Lemma driveLoop_reports (fuel : nat) (sched : list Select) :
  forall (cur : St) w,
  exists tr,
    trace (snd (driveLoop cfg fuel cur sched w)) = trace w ++ tr /\
    ((forall err, ~ In (ObsReport err) tr) \/
     (fst (driveLoop cfg fuel cur sched w) = Returned /\
      exists before err,
        tr = before ++ [ObsReport err; ObsSpawn TaskStop] /\
        forall err', ~ In (ObsReport err') before)).
Proof.
  induction sched as [|sel rest IH]; intros cur w; cbn [driveLoop].
  { exists []; cbn [snd]; rewrite app_nil_r; split; [reflexivity|].
    left; intros err F; exact F. }
  destruct sel as [e|reply|].
  - destruct (applyLoop_Burst cfg fuel
      {| currentState := cur; eventQueue := fn.NewQueue e; world := w |})
      as (tr1 & T1 & B1).
    cbn [currentState world eventQueue] in T1, B1.
    assert (N1 : forall err, ~ In (ObsReport err) tr1)
      by (intros err; apply no_report_driverView;
          apply (Burst_no_report err B1)).
    unfold applyEvents.
    destruct (applyLoop cfg fuel
      {| currentState := cur; eventQueue := fn.NewQueue e; world := w |})
      as [[st [err|]|st pending] w1]; cbn [fst snd] in *.
    + exists (tr1 ++ [ObsReport err; ObsSpawn TaskStop]); split.
      * cbn [record trace]; rewrite T1, <- !app_assoc; reflexivity.
      * right; split; [reflexivity|]. exists tr1, err; auto.
    + set (cu := if IsTerminal st
                 then [ObsCleanUp (Event := Event) (St := St)
                         (CleanUp (Env_ cfg))]
                 else []).
      assert (NC : forall err, ~ In (ObsReport err) (tr1 ++ cu)).
      { intros err F; apply in_app_or in F; destruct F as [F|F];
          [exact (N1 err F)|].
        subst cu; destruct (IsTerminal st); cbn in F;
          [destruct F as [F|[]]; discriminate F | exact F]. }
      destruct (IH st (if IsTerminal st
                       then record (ObsCleanUp (CleanUp (Env_ cfg))) w1
                       else w1))
        as (tr2 & T2 & R2).
      exists ((tr1 ++ cu) ++ tr2); split.
      * rewrite T2; subst cu; destruct (IsTerminal st);
          cbn [record trace app]; rewrite T1, <- ?app_assoc;
          rewrite ?app_nil_r; reflexivity.
      * destruct R2 as [R2|(F2 & before & err & -> & R2)].
        -- left; intros err F; apply in_app_or in F; destruct F as [F|F];
             [exact (NC err F) | exact (R2 err F)].
        -- right; split; [exact F2|].
           exists ((tr1 ++ cu) ++ before), err; split;
             [rewrite <- !app_assoc; reflexivity|].
           intros err' F; apply in_app_or in F; destruct F as [F|F];
             [exact (NC err' F) | exact (R2 err' F)].
    + exists tr1; split; [exact T1 | left; exact N1].
  - destruct reply; cbn [fn.SendOrQuit negb].
    + destruct (IH cur (record (ObsReply cur) w)) as (tr2 & T2 & R2).
      exists ([ObsReply cur] ++ tr2); split.
      * rewrite T2; cbn [record trace]; rewrite <- app_assoc; reflexivity.
      * destruct R2 as [R2|(F2 & before & err & -> & R2)].
        -- left; intros err [F|F]; [discriminate F | exact (R2 err F)].
        -- right; split; [exact F2|].
           exists ([ObsReply cur] ++ before), err; split; [reflexivity|].
           intros err' [F|F]; [discriminate F | exact (R2 err' F)].
    + exists []; cbn [snd]; rewrite app_nil_r; split; [reflexivity|].
      left; intros err F; exact F.
  - exists []; cbn [snd]; rewrite app_nil_r; split; [reflexivity|].
    left; intros err F; exact F.
Qed.

(** X16.  In a run of the driver the [ErrorReporter] is called at most once,
    and when it is called that is the end: the driver launches [Stop] right
    after and has returned; before that call no error was reported. *)
Theorem error_reported_once_then_stop
    (fuel : nat) (sched : list Select) w :
  exists tr,
    trace (snd (driveMachine cfg fuel sched w)) = trace w ++ tr /\
    ((forall err, ~ In (ObsReport err) tr) \/
     (fst (driveMachine cfg fuel sched w) = Returned /\
      exists before err,
        tr = before ++ [ObsReport err; ObsSpawn TaskStop] /\
        forall err', ~ In (ObsReport err') before)).
Proof.
  unfold driveMachine.
  assert (I0 : exists tr0,
             trace (snd (fn.MapOptionZ (fun w0 => (None, w0)) (InitEvent cfg)
                           executeDaemonEvent w)) = trace w ++ tr0 /\
             forall err, ~ In (ObsReport err) tr0).
  { destruct (InitEvent cfg) as [d|]; cbn [fn.MapOptionZ].
    - destruct (executeDaemonEvent_steps d w) as (tr1 & E1 & V1 & _).
      exists (ObsExec d :: tr1); split; [exact E1|].
      intros err; apply no_report_driverView.
      rewrite driverView_cons, V1; cbn; intros [F|[]]; discriminate F.
    - exists []; cbn; rewrite app_nil_r; auto. }
  destruct I0 as (tr0 & T0 & N0).
  destruct (fn.MapOptionZ (fun w0 => (None, w0)) (InitEvent cfg)
              executeDaemonEvent w) as [[err|] w1]; cbn [fst snd] in *.
  - exists tr0; auto.
  - destruct (driveLoop_reports fuel sched (InitialState cfg)
                (record (ObsNotify (InitialState cfg)) w1))
      as (tr2 & T2 & R2).
    assert (N : forall err,
               ~ In (ObsReport err) (tr0 ++ [ObsNotify (InitialState cfg)])).
    { intros err F; apply in_app_or in F; destruct F as [F|[F|[]]];
        [exact (N0 err F) | discriminate F]. }
    exists ((tr0 ++ [ObsNotify (InitialState cfg)]) ++ tr2); split.
    + rewrite T2; cbn [record trace]; rewrite T0, <- !app_assoc; reflexivity.
    + destruct R2 as [R2|(F2 & before & err & -> & R2)].
      * left; intros err F; apply in_app_or in F; destruct F as [F|F];
          [exact (N err F) | exact (R2 err F)].
      * right; split; [exact F2|].
        exists ((tr0 ++ [ObsNotify (InitialState cfg)]) ++ before), err.
        split; [rewrite <- !app_assoc; reflexivity|].
        intros err' F; apply in_app_or in F; destruct F as [F|F];
          [exact (N err' F) | exact (R2 err' F)].
Qed.

Lemma execs_driverView tr : execs (driverView tr) = execs tr.
Proof.
  induction tr as [|o tr IH]; [reflexivity|].
  rewrite driverView_cons; destruct o; cbn; rewrite ?IH; reflexivity.
Qed.

Lemma execs_Exec (ds : list (DaemonEvent Event)) :
  execs (map (ObsExec (St := St)) ds) = ds.
Proof. induction ds as [|d ds IH]; cbn; [|rewrite IH]; reflexivity. Qed.

(** X17.  Nothing is undone when an effect fails: if a transition emits
    effects of which the first ones go through and the next returns an
    error, the burst stops there with that error and without a commit, the
    effects after it are not executed, and the adapter has got the calls of
    the effects before it and of the failing one, and keeps the state they
    left. *)
Theorem failed_effect_is_not_rolled_back
    (cur : St) (e : Event) (q : list Event) w
    (t : StateTransition Event St)
    (done : list (DaemonEvent Event)) (d : DaemonEvent Event)
    (after : list (DaemonEvent Event)) wd w' (err : error) :
  ProcessEvent cur e (Env_ cfg) = inl t ->
  externalsOf t = done ++ d :: after ->
  execDaemonEvents done (record (ObsProcess cur e) w) = (None, wd) ->
  executeDaemonEvent d wd = (Some err, w') ->
  applyOne cfg e {| currentState := cur; eventQueue := q; world := w |}
  = (Some err, {| currentState := cur; eventQueue := q; world := w' |}) /\
  exists tr,
    trace w' = trace w ++ tr /\
    execs tr = done ++ [d] /\
    notified tr = [] /\
    calls tr = flat_map callsOf (done ++ [d]) /\
    daemon w'
    = fold_left (fun a c => perform c a) (flat_map callsOf (done ++ [d]))
        (daemon w).
Proof.
  intros P X D F; split.
  { apply TransitionFails_applyOne; right.
    exists t, done, d, after, wd; auto. }
  destruct (execDaemonEvents_trace done (record (ObsProcess cur e) w))
    as (tr1 & T1 & V1).
  rewrite D in T1, V1; cbn [fst snd] in T1, V1.
  destruct (executeDaemonEvent_steps d wd) as (tr2 & T2 & V2 & _).
  rewrite F in T2; cbn [snd] in T2.
  assert (T : trace w' = trace w ++ (ObsProcess cur e :: tr1)
                                  ++ ObsExec d :: tr2).
  { rewrite T2, T1; cbn [record trace]; rewrite <- !app_assoc; reflexivity. }
  assert (E : execs ((ObsProcess cur e :: tr1) ++ ObsExec d :: tr2)
              = done ++ [d]).
  { rewrite <- execs_driverView, driverView_app, !driverView_cons, V1, V2.
    cbn [isDriverStep]; rewrite execs_app; cbn [execs].
    rewrite execs_Exec; reflexivity. }
  assert (AF : AdapterFollows w w').
  { eapply AdapterFollows_trans;
      [apply (AdapterFollows_record (ObsProcess cur e) w); reflexivity|].
    eapply AdapterFollows_trans.
    - pose proof (AdapterFollows_execDaemonEvents done
                    (record (ObsProcess cur e) w)) as Y.
      rewrite D in Y; exact Y.
    - pose proof (AdapterFollows_exec d wd) as Y.
      rewrite F in Y; exact Y. }
  destruct AF as (tr & T' & C & G).
  assert (tr = (ObsProcess cur e :: tr1) ++ ObsExec d :: tr2)
    by (apply (app_inv_head (trace w)); rewrite <- T', <- T; reflexivity).
  subst tr; rewrite E in C.
  eexists; split; [exact T|]; split; [exact E|]; split; [|split].
  - rewrite <- notified_driverView, driverView_app, !driverView_cons, V1, V2.
    cbn [isDriverStep]; rewrite notified_app; cbn [notified].
    rewrite (proj1 (scan_Exec (St := St) done)); reflexivity.
  - exact C.
  - rewrite G, C; reflexivity.
Qed.

End Failures.

Section DemoFailures.
Import protofsm.
#[local] Existing Instance demo.externals.
#[local] Existing Instance demo.adapter.
#[local] Existing Instance demo.env.
#[local] Existing Instance demo.state.

(** [Publish 0] in [Working]: the first disable goes through, the broadcast
    is refused, the second disable is never asked for. *)
Lemma failed_effect_is_not_rolled_back_witness :
  exists w' : World (H := demo.externals) (Event := demo.Ev) (St := demo.St)
                (A := list (AdapterCall (H := demo.externals))),
    applyOne demo.cfg (demo.Publish 0)
      {| currentState := demo.Working; eventQueue := [];
         world := demo.w0 |}
    = (Some (Errorf "unable to broadcast txn" (ErrExternal 1%nat)),
       {| currentState := demo.Working; eventQueue := []; world := w' |}) /\
    exists tr,
      trace w' = trace demo.w0 ++ tr /\
      execs tr = demo.upToRefused /\
      notified tr = [] /\
      calls tr = flat_map callsOf demo.upToRefused /\
      daemon w'
      = fold_left (fun a c => perform c a)
          (flat_map callsOf demo.upToRefused) (daemon demo.w0).
Proof.
  eexists.
  eapply (failed_effect_is_not_rolled_back demo.cfg demo.Working
            (demo.Publish 0) [] demo.w0
            [DisableChannelEvent (H := demo.externals) 8%nat]
            (BroadcastTxn (H := demo.externals) 0%nat "published"%string)
            [DisableChannelEvent (H := demo.externals) 9%nat]);
    reflexivity.
Defined.

End DemoFailures.
